(** * Model 6: cerebral blood volume (CBV) baseline integral

    A shallow embedding of [src/Model6.cpp]: the series calibration
    [M6_ModelInit], the bolus detector [FindBolusPosition] and the per-voxel
    pipeline [M6_ModelFunc], with the properties of the specification that
    can be settled on them.

    Conventions.
    - A C [double] is a binary64 float of the kernel ([PrimFloat.float]);
      comparisons are the IEEE ones, so every comparison with a NaN is false.
    - A C [int] is a [Z]; the indices of the program are frame counts, far
      from the 32-bit limits, and signed overflow is not modelled.
    - A [PDOUBLE] is the view of memory it points into: [p i] is the double
      stored [i] elements after the pointer.
    - Calls to the collaborators of the framework, the messages shown to the
      user and the reads of [GlobalTac] are recorded in an event trace.
    - A local array is the stack content it is declared on, updated by the
      stores of the function; its size [DEF_MAXNUMTMS] is not modelled. *)

From Stdlib Require Import ZArith List Bool Lia String.
From Stdlib Require Import Floats.
Import ListNotations.

#[local] Set Warnings "-inexact-float".
#[local] Open Scope Z_scope.

(** ** Doubles *)

Module Dbl.

Definition double : Type := float.

Definition lt (x y : double) : bool := PrimFloat.ltb x y.
Definition gt (x y : double) : bool := PrimFloat.ltb y x.
Definition le (x y : double) : bool := PrimFloat.leb x y.
Definition ge (x y : double) : bool := PrimFloat.leb y x.

Definition is_nan (x : double) : bool := PrimFloat.is_nan x.

(** [(int)x]: the conversion truncates toward zero. It is undefined in C for
    a NaN or an infinity, where the model answers [0], and for a value whose
    integral part is outside the range of [int], where the model answers
    the integral part. *)
Definition to_int (x : double) : Z :=
  match Prim2SF x with
  | S754_finite s m e =>
      let a := if 0 <=? e then Z.pos m * 2 ^ e else Z.pos m / 2 ^ (- e) in
      if s then - a else a
  | _ => 0
  end.

(** The range of an [int], of 32 bits. *)
Definition INT_MIN : Z := - 2 ^ 31.
Definition INT_MAX : Z := 2 ^ 31 - 1.

Definition is_int (n : Z) : bool := (INT_MIN <=? n) && (n <=? INT_MAX).

(** [(int)x] is defined when [x] is finite and its integral part is in the
    range of [int]; [to_int] is the conversion of the code there. *)
Definition to_int_defined (x : double) : bool :=
  match Prim2SF x with
  | S754_zero _ => true
  | S754_finite _ _ _ => is_int (to_int x)
  | _ => false
  end.

(** [(double)n] for an [int] [n]. *)
Definition of_int (n : Z) : double :=
  if 0 <=? n then PrimFloat.of_uint63 (Uint63.of_Z n)
  else PrimFloat.opp (PrimFloat.of_uint63 (Uint63.of_Z (- n))).

End Dbl.

Import Dbl.

Declare Scope dbl_scope.
Delimit Scope dbl_scope with dbl.
Bind Scope dbl_scope with double.
Infix "+" := PrimFloat.add : dbl_scope.
Infix "-" := PrimFloat.sub : dbl_scope.
Infix "*" := PrimFloat.mul : dbl_scope.
Infix "/" := PrimFloat.div : dbl_scope.
Notation "- x" := (PrimFloat.opp x) : dbl_scope.
Infix "<" := Dbl.lt : dbl_scope.
Infix ">" := Dbl.gt : dbl_scope.
Infix "<=" := Dbl.le : dbl_scope.
Infix ">=" := Dbl.ge : dbl_scope.

(** The constants of the framework header. *)

(** Modelled from the spec: the macros [ONE] and [ZERO] of the framework
    header, which is not part of the sources; the spec gives the
    normalization identity as 1.0 and the clamp value as 0. *)
Definition ONE : double := 1%float.
Definition ZERO : double := 0%float.

(** ** Memory views *)

Definition PDOUBLE : Type := Z -> double.

(** [p + k] on a pointer. *)
Definition padd (p : PDOUBLE) (k : Z) : PDOUBLE := fun i => p (k + i).

(** [p[i] = v] on a local array. *)
Definition store (p : PDOUBLE) (i : Z) (v : double) : PDOUBLE :=
  fun j => if j =? i then v else p j.

(** An array holding the elements of [l]; what lies outside it is not part
    of the array and reads as [0]. *)
Definition of_list (l : list double) : PDOUBLE :=
  fun i => if i <? 0 then ZERO else nth (Z.to_nat i) l ZERO.

(** ** The bolus detector *)

Section BolusDetector.

(** The calibrated window lengths, static in the source. *)
Variables (pre_N post_N : Z).

Variables (wTac : PDOUBLE) (wNumTms : Z).

(** [for ( int t=1; t<wNumTms; t++ ) if ( wTac[t]<msd ) { msd = wTac[t]; b_peak = t; }]
    with [n] iterations left. *)
Fixpoint peak_loop (n : nat) (t : Z) (msd : double) (b_peak : Z) : double * Z :=
  match n with
  | O => (msd, b_peak)
  | S n' =>
      if (wTac t < msd)%dbl then peak_loop n' (t + 1) (wTac t) t
      else peak_loop n' (t + 1) msd b_peak
  end.

Definition find_peak : double * Z :=
  peak_loop (Z.to_nat (wNumTms - 1)) 1 (wTac 0) 0.

(** [for ( b_start=b_peak; b_start>pre_N; b_start-- ) if ( wTac[b_start-1]>cutoff ) break;] *)
Fixpoint start_loop (cutoff : double) (n : nat) (b_start : Z) : Z :=
  match n with
  | O => b_start
  | S n' =>
      if (wTac (b_start - 1)%Z > cutoff)%dbl then b_start
      else start_loop cutoff n' (b_start - 1)
  end.

(** [if ( wTac[b_end]>mx ) mx = wTac[b_end];] *)
Definition raise_max (mx v : double) : double :=
  if (v > mx)%dbl then v else mx.

(** The body of the forward scan after the update of [mx]:
    [(wTac[b_end]>cutoff) || (wTac[b_end]<(mx-noise))]. *)
Definition end_test (cutoff noise mx v : double) : bool :=
  (v > cutoff)%dbl || (v < mx - noise)%dbl.

(** [for ( b_end = b_peak+2; b_end<Last; b_end++ ) { ... break; }] *)
Fixpoint end_loop (cutoff noise : double) (n : nat) (b_end : Z) (mx : double) : Z :=
  match n with
  | O => b_end
  | S n' =>
      let mx' := raise_max mx (wTac b_end) in
      if end_test cutoff noise mx' (wTac b_end) then b_end
      else end_loop cutoff noise n' (b_end + 1) mx'
  end.

Definition FindBolusPosition (noise pre_bl post_bl : double) : Z * Z :=
  let '(msd, b_peak) := find_peak in
  let b_start := start_loop (pre_bl - noise)%dbl (Z.to_nat (b_peak - pre_N)) b_peak in
  let cutoff := (post_bl - noise)%dbl in
  let Last := wNumTms - post_N in
  let b_end := end_loop cutoff noise (Z.to_nat (Last - (b_peak + 2))) (b_peak + 2) msd in
  (b_start, Z.min (b_end - 1) (Last - 1)).


(** The running maximum after the samples [from], ..., [from + k - 1] have
    been seen, starting from [mx]. *)
Fixpoint running_max (mx : double) (from : Z) (k : nat) : double :=
  match k with
  | O => mx
  | S k' => running_max (raise_max mx (wTac from)) (from + 1) k'
  end.

(** The stop test of the forward scan at index [t], for a scan that started
    at [from] with the maximum [mx0]. *)
Definition stops_at (cutoff noise mx0 : double) (from t : Z) : bool :=
  end_test cutoff noise (running_max mx0 from (Z.to_nat (t - from + 1))) (wTac t).

End BolusDetector.

(** [static bool ArrayIsGreater( PDOUBLE Arr, int Num, double Val )]:
    [for ( int i=0; i<Num; i++ ) if ( Arr[i]<=Val ) return false;] and
    [return true;] after the loop. *)
Fixpoint ArrayIsGreater_loop (Arr : PDOUBLE) (Val : double) (n : nat) (i : Z) : bool :=
  match n with
  | O => true
  | S n' =>
      if (Arr i <= Val)%dbl then false
      else ArrayIsGreater_loop Arr Val n' (i + 1)
  end.

Definition ArrayIsGreater (Arr : PDOUBLE) (Num : Z) (Val : double) : bool :=
  ArrayIsGreater_loop Arr Val (Z.to_nat Num) 0.

(** ** Events and the trace monad *)

Inductive event : Type :=
| RdGlobalTac (i : Z)          (* the element [GlobalTac[i]] is read *)
| Msg (text : string)          (* [xmsg]: a message is shown to the user *)
| CallMakeRelativeArr          (* [PR_MakeRelativeArr] *)
| CallIsAir                    (* [IsAir_ByMin] *)
| CallArrStats (n : Z)         (* [PR_ArrStats] on [n] samples *)
| CallIntegral (n : Z)         (* [CalculateIntegral] on [n] samples *)
| CallWrite (v : double).      (* [Write( OutParm,v )] *)

Definition trace : Type := list event.

(** A computation that appends to the trace. *)
Definition M (A : Type) : Type := trace -> A * trace.

Definition ret {A : Type} (a : A) : M A := fun tr => (a, tr).

Definition bind {A B : Type} (m : M A) (k : A -> M B) : M B :=
  fun tr => let '(a, tr') := m tr in k a tr'.

Definition emit (e : event) : M unit := fun tr => (tt, tr ++ [e]).

Notation "x <- m ;; k" := (bind m (fun x => k))
  (at level 61, m at next level, right associativity).
Notation "' p <- m ;; k" := (bind m (fun x => let p := x in k))
  (at level 61, p pattern, m at next level, right associativity).
Notation "m ;;; k" := (bind m (fun _ => k))
  (at level 61, right associativity).

(** The events a computation adds when it starts from the empty trace. *)
Definition events {A : Type} (m : M A) : trace := snd (m []).
Definition result {A : Type} (m : M A) : A := fst (m []).

Definition is_msg (e : event) : bool :=
  match e with Msg _ => true | _ => false end.
Definition is_integral (e : event) : bool :=
  match e with CallIntegral _ => true | _ => false end.
Definition is_write (e : event) : bool :=
  match e with CallWrite _ => true | _ => false end.
Definition is_read (e : event) : bool :=
  match e with RdGlobalTac _ => true | _ => false end.

(** ** The module-static state of Model 6 *)

Record Statics : Type := mkStatics {
  Tarr : option PDOUBLE;       (* [NULL] is [None] *)
  AirThresh : double;
  WhiteMatterNorm : double;
  SkipTimes : Z;
  wNumTms : Z;
  pre_N : Z;
  post_N : Z
}.

(** [enum { PASS_START = 2, ... }] *)
Definition PASS_START : Z := 2.

(** [const double PRE_N_THR = 0.95, POST_N_THR = 0.95;] *)
Definition PRE_N_THR : double := 0.95%float.
Definition POST_N_THR : double := 0.95%float.

(** [double M6_FreeParmDefault[M6_NumFreeParms] = { 20,0 };] *)
Definition M6_FreeParmDefault : PDOUBLE := of_list [20%float; 0%float].

(** Modelled from the spec: the macro [min] on doubles, whose header is not
    part of the sources; the spec has [MinSi = min(curve)], and the macro
    of the platform header is [((a) < (b)) ? (a) : (b)]. *)
Definition dmin (a b : double) : double := if (a < b)%dbl then a else b.

(** Reading through a pointer; through [NULL] it is undefined in C, and
    every sample reads as a NaN in the model. *)
Definition deref (p : option PDOUBLE) : PDOUBLE :=
  match p with Some a => a | None => fun _ => PrimFloat.nan end.

(** Modelled from the spec: the macros [xmsg], [xz] and [xnz] of the
    framework header, which is not part of the sources. [func_exit] is the
    label at the end of a function, where it returns what [res] holds.
    [xmsg( text )] shows the message and leaves through [func_exit] (a
    configuration error must abort the calibration); [xz( e )] leaves
    through it when [e] is zero, here a [NULL] pointer; [xnz( e )] leaves
    through it when [e] is not zero (a voxel classified as background, or
    with [start >= end], is rejected). *)
Definition xmsg {A : Type} (text : string) (func_exit : M A) : M A :=
  emit (Msg text) ;;; func_exit.

Definition xz {A B : Type} (e : option B) (func_exit : M A) (k : B -> M A) : M A :=
  match e with
  | None => func_exit
  | Some v => k v
  end.

Definition xnz {A : Type} (e : bool) (func_exit : M A) (k : M A) : M A :=
  if e then func_exit else k.

(** Assignments to the statics. *)
Definition set_Tarr (st : Statics) (v : option PDOUBLE) : Statics :=
  mkStatics v (AirThresh st) (WhiteMatterNorm st) (SkipTimes st) (wNumTms st)
    (pre_N st) (post_N st).
Definition set_AirThresh (st : Statics) (v : double) : Statics :=
  mkStatics (Tarr st) v (WhiteMatterNorm st) (SkipTimes st) (wNumTms st)
    (pre_N st) (post_N st).
Definition set_WhiteMatterNorm (st : Statics) (v : double) : Statics :=
  mkStatics (Tarr st) (AirThresh st) v (SkipTimes st) (wNumTms st)
    (pre_N st) (post_N st).
Definition set_SkipTimes (st : Statics) (v : Z) : Statics :=
  mkStatics (Tarr st) (AirThresh st) (WhiteMatterNorm st) v (wNumTms st)
    (pre_N st) (post_N st).
Definition set_wNumTms (st : Statics) (v : Z) : Statics :=
  mkStatics (Tarr st) (AirThresh st) (WhiteMatterNorm st) (SkipTimes st) v
    (pre_N st) (post_N st).
Definition set_pre_N (st : Statics) (v : Z) : Statics :=
  mkStatics (Tarr st) (AirThresh st) (WhiteMatterNorm st) (SkipTimes st) (wNumTms st)
    v (post_N st).
Definition set_post_N (st : Statics) (v : Z) : Statics :=
  mkStatics (Tarr st) (AirThresh st) (WhiteMatterNorm st) (SkipTimes st) (wNumTms st)
    (pre_N st) v.

(** ** Series initialization *)

Section Series.

(** The globals of the framework. *)
Variables (NumTms : Z) (AbsTarr GlobalTac : PDOUBLE) (demp_NoiseLevel : double).
Variables (NumRoiTac : Z) (RoiTacArr : Z -> PDOUBLE) (M6_FreeParm : PDOUBLE).

(** The collaborators of the framework, whose code is not part of the
    sources: they are parameters of the model. [PR_ArrStats] answers the
    mean and the standard deviation. *)
Variable PR_MakeRelativeArr : PDOUBLE -> Z -> option PDOUBLE.
Variable IsAir_ByMin : PDOUBLE -> double -> bool.
Variable PR_ArrStats : PDOUBLE -> Z -> double * double.
Variable CalculateIntegral : PDOUBLE -> PDOUBLE -> Z -> double.
Variable log : double -> double.

(** What the stack holds where a local is declared and not initialized. *)
Variables (stack_Tac stack_CorrTac stack_Cx : PDOUBLE) (stack_Integral : double).

(** [GlobalTac[i]]; a pointer into [GlobalTac] is its offset. *)
Definition rdG (i : Z) : M double :=
  fun tr => (GlobalTac i, tr ++ [RdGlobalTac i]).

(** [for ( int t=1; t<wNumTms; t++ ) MinSi = min( MinSi,wTac[t] );] *)
Fixpoint min_loop (wTac : Z) (n : nat) (t : Z) (MinSi : double) : M double :=
  match n with
  | O => ret MinSi
  | S n' => v <- rdG (wTac + t) ;; min_loop wTac n' (t + 1) (dmin MinSi v)
  end.

(** [for ( pre_N=1; pre_N<wNumTms; pre_N++ ) if ( wTac[pre_N]-MinSi<Thr ) break;] *)
Fixpoint pre_loop (wTac : Z) (MinSi Thr : double) (n : nat) (pre_N : Z) : M Z :=
  match n with
  | O => ret pre_N
  | S n' =>
      v <- rdG (wTac + pre_N) ;;
      if (v - MinSi < Thr)%dbl then ret pre_N
      else pre_loop wTac MinSi Thr n' (pre_N + 1)
  end.

(** [for ( post_N=1; post_N<wNumTms; post_N++ ) if ( wTacEnd[-post_N]-MinSi<Thr ) break;] *)
Fixpoint post_loop (wTacEnd : Z) (MinSi Thr : double) (n : nat) (post_N : Z) : M Z :=
  match n with
  | O => ret post_N
  | S n' =>
      v <- rdG (wTacEnd + - post_N) ;;
      if (v - MinSi < Thr)%dbl then ret post_N
      else post_loop wTacEnd MinSi Thr n' (post_N + 1)
  end.

(** Lines 186-207: the window lengths from the global curve. *)
Definition calibrate (wNumTms : Z) : M (Z * Z) :=
  let wTac := PASS_START in
  SA <- rdG (wTac + 0) ;;
  SB <- rdG (wTac + (wNumTms - 1)) ;;
  MinSi <- min_loop wTac (Z.to_nat (wNumTms - 1)) 1 SA ;;
  let Thr := ((SA - MinSi) * PRE_N_THR)%dbl in
  pre_N <- pre_loop wTac MinSi Thr (Z.to_nat (wNumTms - 1)) 1 ;;
  let wTacEnd := wTac + wNumTms - 1 in
  let Thr := ((SB - MinSi) * POST_N_THR)%dbl in
  post_N <- post_loop wTacEnd MinSi Thr (Z.to_nat (wNumTms - 1)) 1 ;;
  ret (pre_N, post_N).

(** [for ( int t=0; t<NumTms; t++ ) Tac[t] = fabs(RoiTac[t]);] *)
Fixpoint fabs_loop (RoiTac : PDOUBLE) (n : nat) (t : Z) (Tac : PDOUBLE) : PDOUBLE :=
  match n with
  | O => Tac
  | S n' => fabs_loop RoiTac n' (t + 1) (store Tac t (PrimFloat.abs (RoiTac t)))
  end.

(** [bool M6_ModelInit( PVOID* pModelState )], from the statics [st] it
    finds. The call of [M6_ModelFunc] that would fill [Integral] is
    commented out in the source, so [Integral] is read as the stack left
    it. *)
Definition M6_ModelInit (st : Statics) : M (bool * Statics) :=
  let res := false in
  if NumRoiTac >? 1 then
    xmsg "This Model requires no more than one White Matter ROI" (ret (res, st))
  else
    emit CallMakeRelativeArr ;;;
    let st := set_Tarr st (PR_MakeRelativeArr AbsTarr NumTms) in
    xz (Tarr st) (ret (res, st)) (fun _ =>
      let st := set_AirThresh st (M6_FreeParm 0 * demp_NoiseLevel)%dbl in
      let st := set_SkipTimes st (Dbl.to_int (M6_FreeParm 1)) in
      (* Define working number of timepoints *)
      let st := set_wNumTms st (NumTms - SkipTimes st) in
      (* Define pre_N\post_N values *)
      ' (pre_N', post_N') <- calibrate (wNumTms st) ;;
      let st := set_post_N (set_pre_N st pre_N') post_N' in
      (* Define the White Matter norm *)
      if NumRoiTac =? 1 then
        let RoiTac := RoiTacArr 0 in
        let Tac := fabs_loop RoiTac (Z.to_nat NumTms) 0 stack_Tac in
        emit CallIsAir ;;;
        if IsAir_ByMin Tac (Dbl.of_int NumTms) then
          xmsg "White Matter ROI TAC is incorrect" (ret (res, st))
        else
          (* Initialize White Matter Norm *)
          let st := set_WhiteMatterNorm st ONE in
          let Integral := stack_Integral in
          (* M6_ModelFunc( Tac,p ); *)
          let st := set_WhiteMatterNorm st (ONE / Integral)%dbl in
          let res := true in
          ret (res, st)
      else
        let st := set_WhiteMatterNorm st ONE in
        let res := true in
        ret (res, st)).

(** ** The per-voxel pipeline *)

(** Lines 433-439: [for ( int t=b_start; t<=b_end; t++ )
    CorrTac[t] = wTac[t] - sf*(wTarr[t]-b_stime);] *)
Fixpoint corr_loop (wTac wTarr : PDOUBLE) (sf b_stime : double)
    (n : nat) (t : Z) (CorrTac : PDOUBLE) : PDOUBLE :=
  match n with
  | O => CorrTac
  | S n' =>
      corr_loop wTac wTarr sf b_stime n' (t + 1)
        (store CorrTac t (wTac t - sf * (wTarr t - b_stime))%dbl)
  end.

Definition baseline_correct (wTac wTarr : PDOUBLE) (pre_bl post_bl : double)
    (b_start b_end : Z) : PDOUBLE :=
  let b_stime := wTarr b_start in
  let sf := ((post_bl - pre_bl) / (wTarr b_end - b_stime))%dbl in
  corr_loop wTac wTarr sf b_stime (Z.to_nat (b_end + 1 - b_start)) b_start stack_CorrTac.

(** The body of the loop of lines 446-450. *)
Definition conc_sample (v S0 : double) : double :=
  let tmp := (v / S0)%dbl in
  if (tmp > 0.01%float)%dbl && (tmp < ONE)%dbl then (- log tmp)%dbl else ZERO.

(** [for ( int t=0; t<wNumTms; t++ ) { ... Cx[t] = ...; }] *)
Fixpoint conc_loop (CorrTac : PDOUBLE) (S0 : double) (n : nat) (t : Z) (Cx : PDOUBLE)
    : PDOUBLE :=
  match n with
  | O => Cx
  | S n' => conc_loop CorrTac S0 n' (t + 1) (store Cx t (conc_sample (CorrTac t) S0))
  end.

Definition concentration (CorrTac : PDOUBLE) (pre_bl : double) (wNumTms : Z) : PDOUBLE :=
  let S0 := pre_bl in
  conc_loop CorrTac S0 (Z.to_nat wNumTms) 0 stack_Cx.

(** [bool M6_ModelFunc( PDOUBLE Tac, PIVAL OutParm )]. The values written
    to [OutParm] are the [CallWrite] events of the trace. *)
Definition M6_ModelFunc (st : Statics) (Tac : PDOUBLE) : M bool :=
  let res := false in
  (* Set values for void voxels *)
  emit CallIsAir ;;;
  xnz (IsAir_ByMin Tac (AirThresh st)) (ret res) (
    let wTac := padd Tac (SkipTimes st) in
    let wNumTms := NumTms - SkipTimes st in
    let wTarr := padd (deref (Tarr st)) (SkipTimes st) in
    emit (CallArrStats (pre_N st)) ;;;
    let '(pre_bl, noise) := PR_ArrStats wTac (pre_N st) in
    emit (CallArrStats (post_N st)) ;;;
    let post_bl := fst (PR_ArrStats (padd wTac (wNumTms - post_N st)) (post_N st)) in
    (* Find position of the Bolus *)
    let '(b_start, b_end) :=
      FindBolusPosition (pre_N st) (post_N st) wTac wNumTms noise pre_bl post_bl in
    xnz (b_start >=? b_end) (ret res) (
      (* Perform baseline correction *)
      let CorrTac := baseline_correct wTac wTarr pre_bl post_bl b_start b_end in
      (* Find tracer concentration *)
      let Cx := concentration CorrTac pre_bl wNumTms in
      (* R2 integral with BaseLine *)
      emit (CallIntegral (b_end - b_start + 1)) ;;;
      let Intg := CalculateIntegral (padd Cx b_start) (padd wTarr b_start)
                    (b_end - b_start + 1) in
      emit (CallWrite (Intg * WhiteMatterNorm st)%dbl) ;;;
      let res := true in
      ret res)).

End Series.

(** Modelled from the spec: [pf_free], whose code is not part of the
    sources; the time axis is released at series teardown, and the pointer
    whose address it is given is left [NULL]. *)
Definition pf_free (p : option PDOUBLE) : option PDOUBLE := None.

(** [void M6_ModelClose( PVOID ModelState ) { pf_free(&Tarr); }] *)
Definition M6_ModelClose (st : Statics) : Statics :=
  set_Tarr st (pf_free (Tarr st)).

(** ** Notions used to state the properties *)

(** The minimum kept by [min_loop] after the samples [from], ...,
    [from + k - 1] of [w], starting from [m]. *)
Fixpoint running_min (w : PDOUBLE) (m : double) (from : Z) (k : nat) : double :=
  match k with
  | O => m
  | S k' => running_min w (dmin m (w from)) (from + 1) k'
  end.

(** The indices [from], ..., [from + n - 1]. *)
Fixpoint zseq (from : Z) (n : nat) : list Z :=
  match n with
  | O => []
  | S n' => from :: zseq (from + 1) n'
  end.

(** The index [i] lies inside an array of [NumTms] elements. *)
Definition in_bounds (NumTms i : Z) : Prop := 0 <= i < NumTms.

(** A computation is framed when it only appends to the trace it is
    given, and appends the same events whatever that trace is. *)
Definition framed {A : Type} (m : M A) : Prop :=
  forall tr, m tr = (result m, tr ++ events m).

(** The strict order on two finite floats of the same sign, as a
    lexicographic order on exponent and mantissa. *)
Definition lex_lt (e1 : Z) (m1 : positive) (e2 : Z) (m2 : positive) : Prop :=
  e1 < e2 \/ (e1 = e2 /\ (m1 < m2)%positive).

(** ** The calibration in the words of the specification *)

Module Spec.

(** [min(curve)]. *)
Definition list_min (curve : list double) : double :=
  fold_left dmin (tl curve) (hd ZERO curve).

(** Scan from index [i] while [keep] holds, over at most [n] indices; the
    first index where it fails is the answer. *)
Fixpoint scan_while (keep : Z -> bool) (n : nat) (i : Z) : Z :=
  match n with
  | O => i
  | S n' => if keep i then scan_while keep n' (i + 1) else i
  end.

(** [Calibrate(globalCurve, workingLength) -> (pre_N, post_N)]:
    [SA = curve[0]], [SB = curve[last]], [MinSi = min(curve)]; scan forward
    from index 1 while [curve[i] - MinSi >= (SA - MinSi) * 0.95], and
    backward from the end with [(SB - MinSi) * 0.95]; a scan that never
    fails consumes the whole working length. *)
Definition Calibrate (curve : list double) (workingLength : Z) : Z * Z :=
  let c := of_list curve in
  let last := Z.of_nat (List.length curve) - 1 in
  let SA := c 0 in
  let SB := c last in
  let MinSi := list_min curve in
  let threshold_pre := ((SA - MinSi) * 0.95%float)%dbl in
  let threshold_post := ((SB - MinSi) * 0.95%float)%dbl in
  let n := Z.to_nat (workingLength - 1) in
  (scan_while (fun i => (c i - MinSi >= threshold_pre)%dbl) n 1,
   scan_while (fun j => (c (last - j)%Z - MinSi >= threshold_post)%dbl) n 1).

End Spec.

(** ** Stand-ins to run the model on a concrete series *)

Module Example.

(** Modelled from the spec: [PR_MakeRelativeArr], whose code is not part of
    the sources; the relative time axis is the absolute one shifted to
    start at 0, and the allocation succeeds. *)
Definition MakeRelativeArr (AbsTarr : PDOUBLE) (NumTms : Z) : option PDOUBLE :=
  Some (fun i => (AbsTarr i - AbsTarr 0)%dbl).

(** A classifier that finds no curve to be air, and one that finds every
    curve to be air. *)
Definition never_air (Tac : PDOUBLE) (thresh : double) : bool := false.
Definition always_air (Tac : PDOUBLE) (thresh : double) : bool := true.

(** Frame times of one second per frame. *)
Definition seconds : PDOUBLE := fun i => Dbl.of_int i.

(** The statics before the first initialization. *)
Definition statics0 : Statics := mkStatics None ZERO ZERO 0 0 0 0.

(** A stack that holds zeros. *)
Definition zeros : PDOUBLE := fun _ => ZERO.

(** Modelled from the spec: [PR_ArrStats], whose code is not part of the
    sources; the mean and the standard deviation of the first [n] samples
    (here the deviation of a sample, with [n - 1] in the denominator). *)
Fixpoint sum_loop (f : Z -> double) (n : nat) (i : Z) (acc : double) : double :=
  match n with
  | O => acc
  | S n' => sum_loop f n' (i + 1) (acc + f i)%dbl
  end.

Definition ArrStats (Arr : PDOUBLE) (n : Z) : double * double :=
  let mean := (sum_loop Arr (Z.to_nat n) 0 ZERO / Dbl.of_int n)%dbl in
  let ss := sum_loop (fun i => ((Arr i - mean) * (Arr i - mean))%dbl) (Z.to_nat n) 0 ZERO in
  (mean, PrimFloat.sqrt (ss / Dbl.of_int (n - 1))%dbl).

(** Modelled from the spec: [CalculateIntegral], whose code is not part of
    the sources; the trapezoidal rule on [n] samples, [0] for one sample. *)
Definition Integral (vals times : PDOUBLE) (n : Z) : double :=
  sum_loop (fun i => ((vals i + vals (i + 1)%Z) * (times (i + 1)%Z - times i)
                      / 2%float)%dbl)
    (Z.to_nat (n - 1)) 0 ZERO.

(** A logarithm for the runs that never reach it. *)
Definition no_log (x : double) : double := PrimFloat.nan.

End Example.

(** ** Facts of IEEE comparison *)

Section FloatOrder.

Lemma SFcompare_refl_finite s m e :
  SFcompare (S754_finite s m e) (S754_finite s m e) = Some Eq.
Proof.
  simpl. rewrite Z.compare_refl.
  change (Pos.compare_cont Eq m m) with (Pos.compare m m).
  rewrite Pos.compare_refl. destruct s; reflexivity.
Qed.

Lemma SFltb_irrefl x : SFltb x x = false.
Proof.
  unfold SFltb. destruct x as [s | s | | s m e].
  - reflexivity.
  - destruct s; reflexivity.
  - reflexivity.
  - rewrite SFcompare_refl_finite. reflexivity.
Qed.

Lemma lt_irrefl (x : double) : (x < x)%dbl = false.
Proof. unfold Dbl.lt. rewrite ltb_spec. apply SFltb_irrefl. Qed.

Lemma gt_irrefl (x : double) : (x > x)%dbl = false.
Proof. unfold Dbl.gt. rewrite ltb_spec. apply SFltb_irrefl. Qed.

Lemma Pcompare_Eq_lt m1 m2 : Pos.compare_cont Eq m1 m2 = Lt <-> (m1 < m2)%positive.
Proof. change (Pos.compare_cont Eq m1 m2) with (Pos.compare m1 m2). apply Pos.compare_lt_iff. Qed.

Lemma lex_lt_trans e1 m1 e2 m2 e3 m3 :
  lex_lt e1 m1 e2 m2 -> lex_lt e2 m2 e3 m3 -> lex_lt e1 m1 e3 m3.
Proof. unfold lex_lt. lia. Qed.

Lemma SFcompare_pos_lt m1 e1 m2 e2 :
  SFcompare (S754_finite false m1 e1) (S754_finite false m2 e2) = Some Lt
  <-> lex_lt e1 m1 e2 m2.
Proof.
  simpl. unfold lex_lt. destruct (Z.compare_spec e1 e2) as [E | E | E].
  - rewrite <- Pcompare_Eq_lt.
    split; [intros H; right; split; [exact E | congruence]
           | intros [H | [_ H]]; [lia | congruence]].
  - split; [intros _; left; exact E | reflexivity].
  - split; [discriminate | lia].
Qed.

Lemma SFcompare_neg_lt m1 e1 m2 e2 :
  SFcompare (S754_finite true m1 e1) (S754_finite true m2 e2) = Some Lt
  <-> lex_lt e2 m2 e1 m1.
Proof.
  simpl. unfold lex_lt. destruct (Z.compare_spec e1 e2) as [E | E | E].
  - change (Pos.compare_cont Eq m1 m2) with (Pos.compare m1 m2).
    destruct (Pos.compare_spec m1 m2) as [M | M | M]; simpl;
      (split; [try discriminate; intros _; lia | intros H; try reflexivity; lia]).
  - split; [discriminate | lia].
  - split; [intros _; left; exact E | reflexivity].
Qed.

Lemma SFltb_true x y : SFltb x y = true <-> SFcompare x y = Some Lt.
Proof.
  unfold SFltb. destruct (SFcompare x y) as [[ | | ] | ];
    split; (reflexivity || discriminate || congruence).
Qed.

Lemma SFltb_trans x y z : SFltb x y = true -> SFltb y z = true -> SFltb x z = true.
Proof.
  rewrite !SFltb_true.
  destruct x as [sx | sx | | sx mx ex], y as [sy | sy | | sy my ey],
           z as [sz | sz | | sz mz ez];
    try (simpl; discriminate);
    try (destruct sx; simpl; discriminate);
    try (destruct sy; simpl; discriminate);
    try (destruct sx, sy; simpl; discriminate);
    try (destruct sx, sy, sz; simpl; (discriminate || reflexivity)).
  destruct sx, sy, sz; try (simpl; (discriminate || reflexivity)).
  - rewrite !SFcompare_neg_lt. intros H1 H2. exact (lex_lt_trans _ _ _ _ _ _ H2 H1).
  - rewrite !SFcompare_pos_lt. apply lex_lt_trans.
Qed.

Lemma lt_trans (x y z : double) :
  (x < y)%dbl = true -> (y < z)%dbl = true -> (x < z)%dbl = true.
Proof. unfold Dbl.lt. rewrite !ltb_spec. apply SFltb_trans. Qed.

Lemma SFleb_true x y :
  SFleb x y = true <-> SFcompare x y = Some Lt \/ SFcompare x y = Some Eq.
Proof.
  unfold SFleb. destruct (SFcompare x y) as [[ | | ] | ];
    split; try reflexivity; try discriminate; auto;
    intros [H | H]; discriminate.
Qed.

Lemma SFcompare_pos_eq m1 e1 m2 e2 :
  SFcompare (S754_finite false m1 e1) (S754_finite false m2 e2) = Some Eq
  <-> e1 = e2 /\ m1 = m2.
Proof.
  simpl. destruct (Z.compare_spec e1 e2) as [E | E | E].
  - change (Pos.compare_cont Eq m1 m2) with (Pos.compare m1 m2).
    destruct (Pos.compare_spec m1 m2) as [M | M | M];
      (split; [try discriminate; auto | intros [_ H]; try reflexivity; lia]).
  - split; [discriminate | lia].
  - split; [discriminate | lia].
Qed.

Lemma SFcompare_neg_eq m1 e1 m2 e2 :
  SFcompare (S754_finite true m1 e1) (S754_finite true m2 e2) = Some Eq
  <-> e1 = e2 /\ m1 = m2.
Proof.
  simpl. destruct (Z.compare_spec e1 e2) as [E | E | E].
  - change (Pos.compare_cont Eq m1 m2) with (Pos.compare m1 m2).
    destruct (Pos.compare_spec m1 m2) as [M | M | M]; simpl;
      (split; [try discriminate; auto | intros [_ H]; try reflexivity; lia]).
  - split; [discriminate | lia].
  - split; [discriminate | lia].
Qed.

Lemma SFcompare_eq_lt x y z :
  SFcompare x y = Some Eq -> SFcompare y z = Some Lt -> SFcompare x z = Some Lt.
Proof.
  destruct x as [sx | sx | | sx mx ex], y as [sy | sy | | sy my ey],
           z as [sz | sz | | sz mz ez];
    try (simpl; discriminate);
    try (destruct sx; simpl; discriminate);
    try (destruct sy; simpl; discriminate);
    try (destruct sx, sy; simpl; discriminate);
    try (destruct sx, sy, sz; simpl; (discriminate || reflexivity)); try (simpl; congruence).
  destruct sx, sy, sz; try (simpl; (discriminate || reflexivity)).
  - rewrite SFcompare_neg_eq. intros [-> ->]. exact (fun H => H).
  - rewrite SFcompare_pos_eq. intros [-> ->]. exact (fun H => H).
Qed.

Lemma le_lt_trans (x y z : double) :
  (x <= y)%dbl = true -> (y < z)%dbl = true -> (x < z)%dbl = true.
Proof.
  unfold Dbl.le, Dbl.lt. rewrite leb_spec, !ltb_spec, SFleb_true, !SFltb_true.
  intros [H | H] Hyz.
  - rewrite <- SFltb_true in *. exact (SFltb_trans _ _ _ H Hyz).
  - exact (SFcompare_eq_lt _ _ _ H Hyz).
Qed.

Lemma SFcompare_lt_eq x y z :
  SFcompare x y = Some Lt -> SFcompare y z = Some Eq -> SFcompare x z = Some Lt.
Proof.
  destruct x as [sx | sx | | sx mx ex], y as [sy | sy | | sy my ey],
           z as [sz | sz | | sz mz ez];
    try (simpl; discriminate);
    try (destruct sx; simpl; discriminate);
    try (destruct sy; simpl; discriminate);
    try (destruct sx, sy; simpl; discriminate);
    try (destruct sx, sy, sz; simpl; (discriminate || reflexivity)); try (simpl; congruence).
  destruct sx, sy, sz; try (simpl; (discriminate || reflexivity)).
  - intros H. rewrite SFcompare_neg_eq. intros [<- <-]. exact H.
  - intros H. rewrite SFcompare_pos_eq. intros [<- <-]. exact H.
Qed.

Lemma lt_le_trans (x y z : double) :
  (x < y)%dbl = true -> (y <= z)%dbl = true -> (x < z)%dbl = true.
Proof.
  unfold Dbl.le, Dbl.lt. rewrite leb_spec, !ltb_spec, SFleb_true, !SFltb_true.
  intros Hxy [H | H].
  - rewrite <- SFltb_true in *. exact (SFltb_trans _ _ _ Hxy H).
  - exact (SFcompare_lt_eq _ _ _ Hxy H).
Qed.

Lemma lt_asym (x y : double) : (x < y)%dbl = true -> (y < x)%dbl = false.
Proof.
  intros H. destruct (y < x)%dbl eqn:E; [ | reflexivity].
  rewrite <- (lt_irrefl x). symmetry. exact (lt_trans _ _ _ H E).
Qed.

Lemma SFcompare_antisym x y : SFcompare y x = option_map CompOpp (SFcompare x y).
Proof.
  destruct x as [sx | sx | | sx mx ex], y as [sy | sy | | sy my ey];
    try reflexivity;
    try (destruct sx; reflexivity);
    try (destruct sy; reflexivity);
    try (destruct sx, sy; reflexivity).
  simpl. rewrite (Z.compare_antisym ex ey).
  change (Pos.compare_cont Eq my mx) with (Pos.compare my mx).
  change (Pos.compare_cont Eq mx my) with (Pos.compare mx my).
  rewrite (Pos.compare_antisym mx my).
  destruct sx, sy, (ex ?= ey), (mx ?= my)%positive; reflexivity.
Qed.

Lemma is_nan_false (x : double) :
  Dbl.is_nan x = false -> Prim2SF x <> S754_nan.
Proof.
  unfold Dbl.is_nan, PrimFloat.is_nan. rewrite FloatAxioms.eqb_spec.
  intros H E. rewrite E in H. discriminate H.
Qed.

Lemma SFcompare_some x y :
  x <> S754_nan -> y <> S754_nan -> exists c, SFcompare x y = Some c.
Proof.
  intros Hx Hy.
  destruct x as [sx | sx | | sx mx ex], y as [sy | sy | | sy my ey];
    try congruence; simpl; eauto.
Qed.

(** Two doubles that are not NaN are comparable. *)
Lemma not_lt_le (x y : double) :
  Dbl.is_nan x = false -> Dbl.is_nan y = false ->
  (x < y)%dbl = false -> (y <= x)%dbl = true.
Proof.
  intros Hx Hy. apply is_nan_false in Hx, Hy.
  unfold Dbl.lt, Dbl.le. rewrite ltb_spec, leb_spec.
  unfold SFltb, SFleb. rewrite (SFcompare_antisym (Prim2SF x) (Prim2SF y)).
  destruct (SFcompare_some _ _ Hx Hy) as [c ->].
  destruct c; simpl; congruence.
Qed.

Lemma le_not_lt (x y : double) : (x <= y)%dbl = true -> (y < x)%dbl = false.
Proof.
  intros H. destruct (y < x)%dbl eqn:E; [ | reflexivity].
  rewrite <- (lt_irrefl x). symmetry. exact (le_lt_trans _ _ _ H E).
Qed.

Lemma is_nan_true (x : double) : Dbl.is_nan x = true -> Prim2SF x = S754_nan.
Proof.
  unfold Dbl.is_nan, PrimFloat.is_nan. rewrite FloatAxioms.eqb_spec. unfold SFeqb.
  destruct (Prim2SF x) as [s | s | | s m e]; try reflexivity.
  - discriminate.
  - destruct s; discriminate.
  - rewrite SFcompare_refl_finite. discriminate.
Qed.

(** A NaN is below nothing. *)
Lemma nan_not_lt (x y : double) : Dbl.is_nan x = true -> (x < y)%dbl = false.
Proof.
  intros H. unfold Dbl.lt. rewrite ltb_spec, (is_nan_true x H). reflexivity.
Qed.

(** Subtracting [0] changes no comparison with the value itself. *)
Lemma SFsub_zero x : SFsub prec emax x (S754_zero false) = x.
Proof. destruct x as [[ | ] | [ | ] | | s m e]; reflexivity. Qed.

Lemma Prim2SF_sub_zero (x : double) : Prim2SF (x - ZERO)%dbl = Prim2SF x.
Proof.
  rewrite sub_spec. unfold SF64sub.
  change (Prim2SF ZERO) with (S754_zero false). apply SFsub_zero.
Qed.

Lemma sub_zero_not_gt (x : double) : (x > x - ZERO)%dbl = false.
Proof.
  unfold Dbl.gt. rewrite ltb_spec, Prim2SF_sub_zero. apply SFltb_irrefl.
Qed.

Lemma sub_zero_not_lt (x : double) : (x < x - ZERO)%dbl = false.
Proof.
  unfold Dbl.lt. rewrite ltb_spec, Prim2SF_sub_zero. apply SFltb_irrefl.
Qed.

End FloatOrder.

(** ** The bolus detector: the three scans *)

Section BolusDetectorFacts.

Variables (pre_N post_N : Z) (wTac : PDOUBLE) (wNumTms : Z).

(** The invariant of the peak loop: no sample seen so far is below [msd],
    and no sample before the peak is below or equal to it. *)
Lemma peak_loop_spec n : forall t msd b_peak,
  0 <= b_peak < t ->
  msd = wTac b_peak ->
  (forall i, 0 <= i < t -> (wTac i < msd)%dbl = false) ->
  (forall i, 0 <= i < b_peak -> (wTac i <= msd)%dbl = false) ->
  let '(msd', b_peak') := peak_loop wTac n t msd b_peak in
  msd' = wTac b_peak' /\ 0 <= b_peak' < t + Z.of_nat n /\
  (forall i, 0 <= i < t + Z.of_nat n -> (wTac i < msd')%dbl = false) /\
  (forall i, 0 <= i < b_peak' -> (wTac i <= msd')%dbl = false).
Proof.
  induction n as [ | n IH]; intros t msd b_peak Hb Hm Hmin Hfirst; simpl peak_loop.
  - rewrite Z.add_0_r. auto.
  - destruct (wTac t < msd)%dbl eqn:Hlt.
    + specialize (IH (t + 1) (wTac t) t).
      destruct (peak_loop wTac n (t + 1) (wTac t) t) as [msd' b_peak'].
      replace (t + Z.of_nat (S n)) with (t + 1 + Z.of_nat n) by lia.
      apply IH; [lia | reflexivity | | ].
      * intros i Hi. destruct (Z.eq_dec i t) as [-> | Hne].
        -- apply lt_irrefl.
        -- destruct (wTac i < wTac t)%dbl eqn:Hit; [ | reflexivity].
           rewrite <- (Hmin i) by lia. symmetry. exact (lt_trans _ _ _ Hit Hlt).
      * intros i Hi. destruct (wTac i <= wTac t)%dbl eqn:Hit; [ | reflexivity].
        rewrite <- (Hmin i) by lia. symmetry. exact (le_lt_trans _ _ _ Hit Hlt).
    + specialize (IH (t + 1) msd b_peak).
      destruct (peak_loop wTac n (t + 1) msd b_peak) as [msd' b_peak'].
      replace (t + Z.of_nat (S n)) with (t + 1 + Z.of_nat n) by lia.
      apply IH; [lia | exact Hm | | exact Hfirst].
      intros i Hi. destruct (Z.eq_dec i t) as [-> | Hne]; [exact Hlt | apply Hmin; lia].
Qed.

(** The peak is an index of the curve, no sample is below its value, and
    it is the first index with that value. *)
Lemma find_peak_spec :
  let '(msd, b_peak) := find_peak wTac wNumTms in
  msd = wTac b_peak /\ 0 <= b_peak /\ b_peak < Z.max 1 wNumTms /\
  (forall i, 0 <= i < wNumTms -> (wTac i < msd)%dbl = false) /\
  (forall i, 0 <= i < b_peak -> (wTac i <= msd)%dbl = false).
Proof.
  unfold find_peak.
  pose proof (peak_loop_spec (Z.to_nat (wNumTms - 1)) 1 (wTac 0) 0) as H.
  destruct (peak_loop wTac (Z.to_nat (wNumTms - 1)) 1 (wTac 0) 0) as [msd b_peak].
  destruct H as (Hm & Hb & Hmin & Hfirst); [lia | reflexivity | | | ].
  - intros i Hi. replace i with 0 by lia. apply lt_irrefl.
  - intros i Hi. lia.
  - repeat split; [exact Hm | lia | lia | | exact Hfirst].
    intros i Hi. apply Hmin. lia.
Qed.

Lemma start_loop_spec cutoff n : forall b,
  let s := start_loop wTac cutoff n b in
  b - Z.of_nat n <= s <= b /\
  (forall t, s < t <= b -> (wTac (t - 1)%Z > cutoff)%dbl = false) /\
  (s = b - Z.of_nat n \/ (wTac (s - 1)%Z > cutoff)%dbl = true).
Proof.
  induction n as [ | n IH]; intros b; simpl start_loop.
  - split; [lia | split; [intros t Ht; lia | left; lia]].
  - destruct (wTac (b - 1)%Z > cutoff)%dbl eqn:Hgt.
    + split; [lia | split; [intros t Ht; lia | right; exact Hgt]].
    + destruct (IH (b - 1)) as (Hr & Hw & Hs).
      split; [lia | split].
      * intros t Ht. destruct (Z.eq_dec t b) as [-> | Hne]; [exact Hgt | apply Hw; lia].
      * destruct Hs as [Hs | Hs]; [left; lia | right; exact Hs].
Qed.

Lemma running_max_snoc mx from k :
  running_max wTac mx from (S k)
  = raise_max (running_max wTac mx from k) (wTac (from + Z.of_nat k)).
Proof.
  revert mx from. induction k as [ | k IH]; intros mx from.
  - simpl. rewrite Z.add_0_r. reflexivity.
  - change (running_max wTac mx from (S (S k)))
      with (running_max wTac (raise_max mx (wTac from)) (from + 1) (S k)).
    rewrite IH. simpl running_max.
    replace (from + 1 + Z.of_nat k) with (from + Z.of_nat (S k)) by lia. reflexivity.
Qed.


Lemma end_loop_spec cutoff noise mx0 from n : forall b,
  from <= b ->
  let s := end_loop wTac cutoff noise n b (running_max wTac mx0 from (Z.to_nat (b - from))) in
  b <= s <= b + Z.of_nat n /\
  (forall t, b <= t < s -> stops_at wTac cutoff noise mx0 from t = false) /\
  (s = b + Z.of_nat n \/ stops_at wTac cutoff noise mx0 from s = true).
Proof.
  induction n as [ | n IH]; intros b Hb; simpl end_loop.
  - split; [lia | split; [intros t Ht; lia | left; lia]].
  - assert (Hmx : raise_max (running_max wTac mx0 from (Z.to_nat (b - from))) (wTac b)
                  = running_max wTac mx0 from (Z.to_nat (b - from + 1))).
    { replace (Z.to_nat (b - from + 1)) with (S (Z.to_nat (b - from))) by lia.
      rewrite running_max_snoc. f_equal. f_equal. lia. }
    rewrite Hmx.
    destruct (end_test cutoff noise
                (running_max wTac mx0 from (Z.to_nat (b - from + 1))) (wTac b)) eqn:Htest.
    + split; [lia | split; [intros t Ht; lia | right; exact Htest]].
    + replace (b - from + 1) with (b + 1 - from) by lia.
      destruct (IH (b + 1)) as (Hr & Hw & Hs); [lia | ].
      split; [lia | split].
      * intros t Ht. destruct (Z.eq_dec t b) as [-> | Hne]; [exact Htest | apply Hw; lia].
      * destruct Hs as [Hs | Hs]; [left; lia | right; exact Hs].
Qed.

(** The end index is below [wNumTms - post_N] on every curve. *)
Lemma FindBolusPosition_end_bound noise pre_bl post_bl :
  snd (FindBolusPosition pre_N post_N wTac wNumTms noise pre_bl post_bl)
  < wNumTms - post_N.
Proof.
  unfold FindBolusPosition. destruct (find_peak wTac wNumTms) as [msd b_peak].
  simpl snd. lia.
Qed.

(** The start index is [>= pre_N] when the peak is, and is the peak itself
    when the peak lies in the pre-baseline window. *)
Lemma FindBolusPosition_start_bound noise pre_bl post_bl :
  let b_peak := snd (find_peak wTac wNumTms) in
  let b_start := fst (FindBolusPosition pre_N post_N wTac wNumTms noise pre_bl post_bl) in
  (pre_N <= b_peak -> pre_N <= b_start) /\ (b_peak <= pre_N -> b_start = b_peak).
Proof.
  unfold FindBolusPosition. destruct (find_peak wTac wNumTms) as [msd b_peak].
  simpl fst; simpl snd.
  pose proof (start_loop_spec (pre_bl - noise)%dbl (Z.to_nat (b_peak - pre_N)) b_peak)
    as (Hr & _ & _).
  split; intros H; lia.
Qed.

End BolusDetectorFacts.

(** ** The bolus detector: the claims *)



(** C2. A working curve whose minimum lies inside the pre-baseline window:
    ten samples around 100 with the minimum 97 at index 0, [pre_N = 3],
    [post_N = 3], and the mean 100 and deviation 3 of its first three
    samples. The detector answers the window [(0, 1)]: it is accepted
    ([start < end]) and its end is below [wNumTms - post_N = 7], but its
    start is below [pre_N]. *)
Theorem FindBolusPosition_start_in_baseline :
  let wTac := of_list [97; 100; 103; 100; 99; 101; 100; 100; 100; 100]%float in
  FindBolusPosition 3 3 wTac 10 3%float 100%float 100%float = (0, 1)
  /\ snd (find_peak wTac 10) = 0.
Proof. vm_compute. split; reflexivity. Qed.

(** C3, as stated, fails: a flat curve of ten samples, with zero noise and
    both baseline means equal to the samples, gets the window [(0, 6)] and
    is not rejected: the pipeline answers [true] for the voxel and writes
    the integral [0] over seven samples. *)
Lemma flat_curve_not_rejected :
  let Tac := of_list (repeat 100%float 10) in
  let w := FindBolusPosition 3 3 Tac 10 0%float 100%float 100%float in
  let st := mkStatics (Some Example.seconds) 20%float 1%float 0 10 3 3 in
  w = (0, 6) /\ ~ (fst w >= snd w) /\
  Example.ArrStats Tac 3 = (100%float, 0%float) /\
  M6_ModelFunc 10 Example.never_air Example.ArrStats Example.Integral
    Example.no_log Example.zeros Example.zeros st Tac []
  = (true, [CallIsAir; CallArrStats 3; CallArrStats 3; CallIntegral 7;
            CallWrite 0%float]).
Proof.
  vm_compute.
  split; [reflexivity | split; [intros H; apply H; reflexivity | split; reflexivity]].
Qed.

Section FlatCurve.

Variables (pre_N post_N : Z) (wTac : PDOUBLE) (wNumTms : Z) (c : double).
Hypothesis flat : forall t, 0 <= t < wNumTms -> wTac t = c.

Lemma flat_peak_loop n : forall t,
  0 < t -> t + Z.of_nat n <= Z.max 1 wNumTms ->
  peak_loop wTac n t c 0 = (c, 0).
Proof.
  induction n as [ | n IH]; intros t Ht Hn; simpl; [reflexivity | ].
  rewrite (flat t) by lia. rewrite lt_irrefl. apply IH; lia.
Qed.

Lemma flat_find_peak : 0 < wNumTms -> find_peak wTac wNumTms = (c, 0).
Proof.
  intros Hw. unfold find_peak. rewrite (flat 0) by lia. apply flat_peak_loop; lia.
Qed.

Lemma flat_end_loop n : forall b,
  0 <= b -> b + Z.of_nat n <= wNumTms ->
  end_loop wTac (c - ZERO)%dbl ZERO n b c = b + Z.of_nat n.
Proof.
  induction n as [ | n IH]; intros b Hb Hn; simpl end_loop; [lia | ].
  rewrite (flat b) by lia.
  unfold raise_max. rewrite gt_irrefl.
  unfold end_test. rewrite sub_zero_not_gt, sub_zero_not_lt. simpl orb.
  rewrite IH by lia. lia.
Qed.

End FlatCurve.

(** C3, amended. On a perfectly flat working curve (every sample equal to
    [c]), with zero noise, the post-baseline mean equal to [c] and
    [0 <= post_N], the forward scan runs to its bound: the end index is
    [wNumTms - post_N - 1] and the start index is at most [pre_N]. The
    window is therefore accepted whenever [pre_N < wNumTms - post_N - 1]. *)
Theorem FindBolusPosition_flat
    (pre_N post_N : Z) (wTac : PDOUBLE) (wNumTms : Z) (c pre_bl : double)
    (flat : forall t, 0 <= t < wNumTms -> wTac t = c)
    (Hlen : 0 < wNumTms) (Hpre : 0 <= pre_N) (Hpost : 0 <= post_N) :
  let w := FindBolusPosition pre_N post_N wTac wNumTms ZERO pre_bl c in
  snd w = wNumTms - post_N - 1 /\ fst w <= pre_N /\
  (pre_N < wNumTms - post_N - 1 -> fst w < snd w).
Proof.
  intros w.
  assert (Hend : snd w = wNumTms - post_N - 1).
  { subst w. unfold FindBolusPosition.
    rewrite (flat_find_peak wTac wNumTms c flat Hlen). simpl snd.
    destruct (Z.le_gt_cases 2 (wNumTms - post_N)) as [Hl | Hl].
    - rewrite (flat_end_loop wTac wNumTms c flat) by lia. lia.
    - replace (Z.to_nat (wNumTms - post_N - 2)) with O by lia.
      simpl end_loop. lia. }
  assert (Hstart : fst w <= pre_N).
  { subst w.
    pose proof (FindBolusPosition_start_bound pre_N post_N wTac wNumTms ZERO pre_bl c)
      as [_ H].
    rewrite (flat_find_peak wTac wNumTms c flat Hlen) in H. simpl snd in H.
    rewrite (H Hpre). exact Hpre. }
  split; [exact Hend | split; [exact Hstart | lia]].
Qed.

(** The amended C3 at the flat curve of ten samples. *)
Lemma FindBolusPosition_flat_witness :
  let w := FindBolusPosition 3 3 (of_list (repeat 100%float 10)) 10 ZERO 100%float 100%float in
  snd w = 10 - 3 - 1 /\ fst w <= 3 /\ (3 < 10 - 3 - 1 -> fst w < snd w).
Proof.
  apply (FindBolusPosition_flat 3 3 (of_list (repeat 100%float 10)) 10 100%float 100%float).
  - intros t Ht.
    assert (H : t = 0 \/ t = 1 \/ t = 2 \/ t = 3 \/ t = 4 \/ t = 5 \/ t = 6
                \/ t = 7 \/ t = 8 \/ t = 9) by lia.
    repeat (destruct H as [-> | H]; [reflexivity | ]). subst t. reflexivity.
  - lia.
  - lia.
  - lia.
Defined.

(** ** Calibration: values and reads *)

Lemma SFsub_diag x :
  SFsub prec emax x x = S754_nan \/ SFsub prec emax x x = S754_zero false.
Proof.
  destruct x as [[ | ] | [ | ] | | s m e]; simpl; auto.
  right. rewrite Z.sub_diag. reflexivity.
Qed.

(** On a flat window the threshold test of the calibration scans is false:
    [c - c] is [+0] or a NaN, and so is its product with [0.95]. *)
Lemma flat_threshold_test (c : double) :
  (c - c < (c - c) * PRE_N_THR)%dbl = false.
Proof.
  unfold Dbl.lt. rewrite ltb_spec, mul_spec, sub_spec.
  unfold SF64sub, SF64mul.
  destruct (SFsub_diag (Prim2SF c)) as [-> | ->]; reflexivity.
Qed.

Lemma in_zseq i n : forall from, In i (zseq from n) <-> from <= i < from + Z.of_nat n.
Proof.
  induction n as [ | n IH]; intros from; simpl.
  - lia.
  - rewrite IH. lia.
Qed.

Section CalibrationFacts.

Variable GlobalTac : PDOUBLE.

(** The window the scans work on: [wTac = GlobalTac+PASS_START]. *)
Let w : PDOUBLE := padd GlobalTac PASS_START.

Lemma min_loop_spec n : forall t m tr,
  min_loop GlobalTac PASS_START n t m tr
  = (running_min w m t n, tr ++ map RdGlobalTac (zseq (PASS_START + t) n)).
Proof.
  induction n as [ | n IH]; intros t m tr; cbn [min_loop running_min zseq map].
  - unfold ret. rewrite app_nil_r. reflexivity.
  - unfold bind, rdG. rewrite IH. unfold w at 2, padd.
    rewrite <- app_assoc. cbn [app].
    replace (PASS_START + (t + 1)) with (PASS_START + t + 1) by lia. reflexivity.
Qed.

(** A scan with a break: [test] is what the scan asks at each index. *)
Lemma pre_loop_spec MinSi Thr n : forall p tr,
  let test i := (w i - MinSi < Thr)%dbl in
  exists q l,
    pre_loop GlobalTac PASS_START MinSi Thr n p tr = (q, tr ++ map RdGlobalTac l) /\
    p <= q <= p + Z.of_nat n /\
    (forall i, p <= i < q -> test i = false) /\
    (q = p + Z.of_nat n \/ test q = true) /\
    (forall i, In i l -> PASS_START + p <= i < PASS_START + p + Z.of_nat n).
Proof.
  induction n as [ | n IH]; intros p tr test; cbn [pre_loop].
  - exists p, []. unfold ret. rewrite app_nil_r.
    split; [reflexivity | split; [lia | split; [intros i Hi; lia | split; [left; lia | ]]]].
    intros i [].
  - unfold bind, rdG.
    destruct (GlobalTac (PASS_START + p)%Z - MinSi < Thr)%dbl eqn:Ht.
    + exists p, [PASS_START + p]. unfold ret.
      split; [reflexivity | split; [lia | split; [intros i Hi; lia | split; [right; exact Ht | ]]]].
      intros i [<- | []]. lia.
    + destruct (IH (p + 1) (tr ++ [RdGlobalTac (PASS_START + p)]))
        as (q & l & Heq & Hr & Hw & Hs & Hl).
      exists q, ((PASS_START + p) :: l). rewrite Heq, <- app_assoc.
      split; [reflexivity | split; [lia | split; [ | split]]].
      * intros i Hi. destruct (Z.eq_dec i p) as [-> | Hne]; [exact Ht | apply Hw; lia].
      * destruct Hs as [Hs | Hs]; [left; lia | right; exact Hs].
      * intros i [<- | H]; [lia | apply Hl in H; lia].
Qed.

Lemma post_loop_spec wNumTms MinSi Thr n : forall p tr,
  let test j := (w (wNumTms - 1 - j)%Z - MinSi < Thr)%dbl in
  exists q l,
    post_loop GlobalTac (PASS_START + wNumTms - 1) MinSi Thr n p tr
    = (q, tr ++ map RdGlobalTac l) /\
    p <= q <= p + Z.of_nat n /\
    (forall j, p <= j < q -> test j = false) /\
    (q = p + Z.of_nat n \/ test q = true) /\
    (forall i, In i l ->
       PASS_START + wNumTms - 1 - (p + Z.of_nat n) < i <= PASS_START + wNumTms - 1 - p).
Proof.
  induction n as [ | n IH]; intros p tr test; cbn [post_loop].
  - exists p, []. unfold ret. rewrite app_nil_r.
    split; [reflexivity | split; [lia | split; [intros i Hi; lia | split; [left; lia | ]]]].
    intros i [].
  - unfold bind, rdG.
    assert (Hidx : PASS_START + wNumTms - 1 + - p = PASS_START + (wNumTms - 1 - p)) by lia.
    destruct (GlobalTac (PASS_START + wNumTms - 1 + - p)%Z - MinSi < Thr)%dbl eqn:Ht.
    + exists p, [PASS_START + wNumTms - 1 + - p]. unfold ret.
      split; [reflexivity | split; [lia | split; [intros i Hi; lia | split]]].
      * right. subst test. cbv beta. unfold w, padd. rewrite <- Hidx. exact Ht.
      * intros i [<- | []]. lia.
    + destruct (IH (p + 1) (tr ++ [RdGlobalTac (PASS_START + wNumTms - 1 + - p)]))
        as (q & l & Heq & Hr & Hw & Hs & Hl).
      exists q, ((PASS_START + wNumTms - 1 + - p) :: l). rewrite Heq, <- app_assoc.
      split; [reflexivity | split; [lia | split; [ | split]]].
      * intros j Hj. destruct (Z.eq_dec j p) as [-> | Hne]; [ | apply Hw; lia].
        subst test. cbv beta. unfold w, padd. rewrite <- Hidx. exact Ht.
      * destruct Hs as [Hs | Hs]; [left; lia | right; exact Hs].
      * intros i [<- | H]; [lia | apply Hl in H; lia].
Qed.

End CalibrationFacts.

Section RunningMin.

Variable w : PDOUBLE.

Lemma running_min_attained k : forall from m,
  running_min w m from k = m \/
  exists i, from <= i < from + Z.of_nat k /\ running_min w m from k = w i.
Proof.
  induction k as [ | k IH]; intros from m; cbn [running_min].
  - left. reflexivity.
  - destruct (IH (from + 1) (dmin m (w from))) as [H | (i & Hi & H)].
    + rewrite H. unfold dmin. destruct (m < w from)%dbl; [left; reflexivity | ].
      right. exists from. split; [lia | reflexivity].
    + right. exists i. split; [lia | exact H].
Qed.

Lemma dmin_not_nan m v :
  Dbl.is_nan m = false -> Dbl.is_nan v = false -> Dbl.is_nan (dmin m v) = false.
Proof. intros Hm Hv. unfold dmin. destruct (m < v)%dbl; assumption. Qed.

Lemma dmin_lower m v x :
  Dbl.is_nan m = false -> Dbl.is_nan v = false ->
  (x < m)%dbl = false -> (x < dmin m v)%dbl = false.
Proof.
  intros Hm Hv Hx. unfold dmin. destruct (m < v)%dbl eqn:E; [exact Hx | ].
  destruct (x < v)%dbl eqn:Exv; [ | reflexivity].
  rewrite <- Hx. symmetry.
  exact (lt_le_trans _ _ _ Exv (not_lt_le _ _ Hm Hv E)).
Qed.

Lemma dmin_not_above m v : (v < dmin m v)%dbl = false.
Proof.
  unfold dmin. destruct (m < v)%dbl eqn:E; [exact (lt_asym _ _ E) | apply lt_irrefl].
Qed.

(** Without a NaN among the samples, the running minimum is below or equal
    to every sample seen and to everything its start was. *)
Lemma running_min_least k : forall from m,
  Dbl.is_nan m = false ->
  (forall i, from <= i < from + Z.of_nat k -> Dbl.is_nan (w i) = false) ->
  (forall x, (x < m)%dbl = false -> (x < running_min w m from k)%dbl = false) /\
  (forall i, from <= i < from + Z.of_nat k -> (w i < running_min w m from k)%dbl = false).
Proof.
  induction k as [ | k IH]; intros from m Hm Hw; cbn [running_min].
  - split; [auto | intros i Hi; lia].
  - assert (Hv : Dbl.is_nan (w from) = false) by (apply Hw; lia).
    destruct (IH (from + 1) (dmin m (w from))) as [Hlow Hall].
    + apply dmin_not_nan; assumption.
    + intros i Hi. apply Hw. lia.
    + split.
      * intros x Hx. apply Hlow. apply dmin_lower; assumption.
      * intros i Hi. destruct (Z.eq_dec i from) as [-> | Hne].
        -- apply Hlow. apply dmin_not_above.
        -- apply Hall. lia.
Qed.

End RunningMin.

Lemma Forall_is_read_map l : Forall (fun e => is_read e = true) (map RdGlobalTac l).
Proof. induction l; simpl; constructor; auto. Qed.

(** The value and the trace of the calibration block. *)
Lemma calibrate_spec (GlobalTac : PDOUBLE) (wNumTms : Z) :
  let w := padd GlobalTac PASS_START in
  let SA := w 0 in
  let SB := w (wNumTms - 1) in
  let MinSi := running_min w SA 1 (Z.to_nat (wNumTms - 1)) in
  let drop_pre i := (w i - MinSi < (SA - MinSi) * PRE_N_THR)%dbl in
  let drop_post j := (w (wNumTms - 1 - j)%Z - MinSi < (SB - MinSi) * POST_N_THR)%dbl in
  let n := Z.of_nat (Z.to_nat (wNumTms - 1)) in
  exists pre_N post_N l1 l2,
    calibrate GlobalTac wNumTms []
    = ((pre_N, post_N),
       map RdGlobalTac ([PASS_START; PASS_START + (wNumTms - 1)]
                        ++ zseq (PASS_START + 1) (Z.to_nat (wNumTms - 1)) ++ l1 ++ l2)) /\
    (1 <= pre_N <= 1 + n /\
     (forall i, 1 <= i < pre_N -> drop_pre i = false) /\
     (pre_N = 1 + n \/ drop_pre pre_N = true)) /\
    (1 <= post_N <= 1 + n /\
     (forall j, 1 <= j < post_N -> drop_post j = false) /\
     (post_N = 1 + n \/ drop_post post_N = true)) /\
    (forall i, In i (l1 ++ l2) -> PASS_START <= i < PASS_START + 1 + n).
Proof.
  intros w SA SB MinSi drop_pre drop_post n.
  unfold calibrate. unfold bind at 1. unfold rdG at 1.
  unfold bind at 1. unfold rdG at 1.
  unfold bind at 1. rewrite min_loop_spec.
  replace (GlobalTac (PASS_START + 0)) with SA
    by (subst SA w; unfold padd; reflexivity).
  replace (GlobalTac (PASS_START + (wNumTms - 1))) with SB
    by (subst SB w; unfold padd; reflexivity).
  fold w. fold MinSi.
  unfold bind at 1.
  destruct (pre_loop_spec GlobalTac MinSi ((SA - MinSi) * PRE_N_THR)%dbl
              (Z.to_nat (wNumTms - 1)) 1
              ((([] ++ [RdGlobalTac (PASS_START + 0)])
                 ++ [RdGlobalTac (PASS_START + (wNumTms - 1))])
                 ++ map RdGlobalTac (zseq (PASS_START + 1) (Z.to_nat (wNumTms - 1)))))
    as (pre & l1 & Hpre & Hr1 & Hw1 & Hs1 & Hl1).
  rewrite Hpre. unfold bind at 1.
  destruct (post_loop_spec GlobalTac wNumTms MinSi ((SB - MinSi) * POST_N_THR)%dbl
              (Z.to_nat (wNumTms - 1)) 1
              (((([] ++ [RdGlobalTac (PASS_START + 0)])
                 ++ [RdGlobalTac (PASS_START + (wNumTms - 1))])
                 ++ map RdGlobalTac (zseq (PASS_START + 1) (Z.to_nat (wNumTms - 1))))
                 ++ map RdGlobalTac l1))
    as (post & l2 & Hpost & Hr2 & Hw2 & Hs2 & Hl2).
  rewrite Hpost. unfold ret.
  exists pre, post, l1, l2.
  split; [ | split; [ | split]].
  - f_equal. rewrite Z.add_0_r, !map_app. cbn [map app].
    rewrite <- !app_assoc. reflexivity.
  - fold n in Hr1, Hs1. split; [lia | split; [exact Hw1 | exact Hs1]].
  - fold n in Hr2, Hs2. split; [lia | split; [exact Hw2 | exact Hs2]].
  - intros i Hi. apply in_app_or in Hi. fold n in Hl1, Hl2.
    destruct Hi as [Hi | Hi]; [apply Hl1 in Hi | apply Hl2 in Hi]; lia.
Qed.

(** ** Computations only append to the trace *)

Lemma framed_ret {A : Type} (a : A) : framed (ret a).
Proof. intros tr. unfold ret, result, events. simpl. rewrite app_nil_r. reflexivity. Qed.

Lemma framed_emit (e : event) : framed (emit e).
Proof. intros tr. reflexivity. Qed.

Lemma framed_rdG (GlobalTac : PDOUBLE) (i : Z) : framed (rdG GlobalTac i).
Proof. intros tr. reflexivity. Qed.

Lemma framed_bind {A B : Type} (m : M A) (k : A -> M B) :
  framed m -> (forall a, framed (k a)) -> framed (bind m k).
Proof.
  intros Hm Hk tr. unfold result, events, bind.
  rewrite (Hm tr), (Hm []). rewrite (Hk (result m) (tr ++ events m)).
  rewrite (Hk (result m) ([] ++ events m)). simpl. rewrite app_assoc. reflexivity.
Qed.

Lemma framed_min_loop G wTac n : forall t m, framed (min_loop G wTac n t m).
Proof.
  induction n as [ | n IH]; intros t m; cbn [min_loop].
  - apply framed_ret.
  - apply framed_bind; [apply framed_rdG | intros v; apply IH].
Qed.

Lemma framed_pre_loop G wTac MinSi Thr n : forall p, framed (pre_loop G wTac MinSi Thr n p).
Proof.
  induction n as [ | n IH]; intros p; cbn [pre_loop].
  - apply framed_ret.
  - apply framed_bind; [apply framed_rdG | intros v].
    destruct (v - MinSi < Thr)%dbl; [apply framed_ret | apply IH].
Qed.

Lemma framed_post_loop G wTacEnd MinSi Thr n : forall p,
  framed (post_loop G wTacEnd MinSi Thr n p).
Proof.
  induction n as [ | n IH]; intros p; cbn [post_loop].
  - apply framed_ret.
  - apply framed_bind; [apply framed_rdG | intros v].
    destruct (v - MinSi < Thr)%dbl; [apply framed_ret | apply IH].
Qed.

Lemma framed_calibrate G wNumTms : framed (calibrate G wNumTms).
Proof.
  unfold calibrate.
  apply framed_bind; [apply framed_rdG | intros SA].
  apply framed_bind; [apply framed_rdG | intros SB].
  apply framed_bind; [apply framed_min_loop | intros MinSi].
  apply framed_bind; [apply framed_pre_loop | intros pre].
  apply framed_bind; [apply framed_post_loop | intros post].
  apply framed_ret.
Qed.

(** The reads of the calibration block: the two ends of the window, every
    sample of the window after the first, and reads inside the window. *)
Lemma calibrate_events (GlobalTac : PDOUBLE) (wNumTms : Z) :
  exists l,
    events (calibrate GlobalTac wNumTms)
    = map RdGlobalTac ([PASS_START; PASS_START + (wNumTms - 1)]
                       ++ zseq (PASS_START + 1) (Z.to_nat (wNumTms - 1)) ++ l) /\
    (forall i, In i l -> PASS_START <= i < PASS_START + 1 + Z.of_nat (Z.to_nat (wNumTms - 1))).
Proof.
  destruct (calibrate_spec GlobalTac wNumTms) as (pre & post & l1 & l2 & Heq & _ & _ & Hl).
  exists (l1 ++ l2). unfold events. rewrite Heq. split; [reflexivity | exact Hl].
Qed.

(** On a working length of at least one frame every event of the
    calibration block is a read inside the window. *)
Lemma calibrate_reads_in_window (GlobalTac : PDOUBLE) (wNumTms : Z) :
  1 <= wNumTms ->
  forall e, In e (events (calibrate GlobalTac wNumTms)) ->
  exists i, e = RdGlobalTac i /\ PASS_START <= i <= PASS_START + wNumTms - 1.
Proof.
  intros Hlen e He.
  destruct (calibrate_events GlobalTac wNumTms) as (l & Hev & Hl).
  rewrite Hev in He. apply in_map_iff in He. destruct He as (i & <- & Hi).
  exists i. split; [reflexivity | ].
  apply in_app_or in Hi. destruct Hi as [[<- | [<- | []]] | Hi]; [lia | lia | ].
  apply in_app_or in Hi. destruct Hi as [Hi | Hi].
  - apply in_zseq in Hi. lia.
  - apply Hl in Hi. lia.
Qed.

(** ** Series initialization: the paths of [M6_ModelInit] *)

Section SeriesFacts.

Variables (NumTms : Z) (AbsTarr GlobalTac : PDOUBLE) (demp_NoiseLevel : double).
Variables (NumRoiTac : Z) (RoiTacArr : Z -> PDOUBLE) (M6_FreeParm : PDOUBLE).
Variable PR_MakeRelativeArr : PDOUBLE -> Z -> option PDOUBLE.
Variable IsAir_ByMin : PDOUBLE -> double -> bool.
Variables (stack_Tac : PDOUBLE) (stack_Integral : double).

Let Init : Statics -> M (bool * Statics) :=
  M6_ModelInit NumTms AbsTarr GlobalTac demp_NoiseLevel NumRoiTac RoiTacArr M6_FreeParm
    PR_MakeRelativeArr IsAir_ByMin stack_Tac stack_Integral.

Let SkipTimes' : Z := Dbl.to_int (M6_FreeParm 1).
Let wNumTms' : Z := NumTms - SkipTimes'.

(** The ROI curve, when there is one, as [IsAir_ByMin] sees it. *)
Let roi_is_air : bool :=
  IsAir_ByMin (fabs_loop (RoiTacArr 0) (Z.to_nat NumTms) 0 stack_Tac) (Dbl.of_int NumTms).

(** More than one ROI: a message, no success, the statics untouched. *)
Lemma M6_ModelInit_too_many_roi st :
  1 < NumRoiTac ->
  Init st [] = ((false, st),
                [Msg "This Model requires no more than one White Matter ROI"]).
Proof.
  intros H. subst Init. unfold M6_ModelInit.
  replace (NumRoiTac >? 1) with true by (symmetry; apply Z.gtb_lt; lia).
  reflexivity.
Qed.

(** The path that reaches the end of the function. *)
Lemma M6_ModelInit_success st T :
  NumRoiTac <= 1 ->
  PR_MakeRelativeArr AbsTarr NumTms = Some T ->
  (NumRoiTac = 1 -> roi_is_air = false) ->
  result (Init st)
  = (true,
     mkStatics (Some T) (M6_FreeParm 0 * demp_NoiseLevel)%dbl
       (if NumRoiTac =? 1 then (ONE / stack_Integral)%dbl else ONE)
       SkipTimes' wNumTms'
       (fst (result (calibrate GlobalTac wNumTms')))
       (snd (result (calibrate GlobalTac wNumTms')))) /\
  events (Init st)
  = CallMakeRelativeArr :: events (calibrate GlobalTac wNumTms')
      ++ (if NumRoiTac =? 1 then [CallIsAir] else []).
Proof.
  intros H1 H2 H3.
  remember (result (calibrate GlobalTac wNumTms')) as rc eqn:Hrc.
  remember (events (calibrate GlobalTac wNumTms')) as ec eqn:Hec.
  assert (Heq : Init st []
                = ((true,
                    mkStatics (Some T) (M6_FreeParm 0 * demp_NoiseLevel)%dbl
                      (if NumRoiTac =? 1 then (ONE / stack_Integral)%dbl else ONE)
                      SkipTimes' wNumTms' (fst rc) (snd rc)),
                   CallMakeRelativeArr :: ec
                     ++ (if NumRoiTac =? 1 then [CallIsAir] else []))).
  { subst Init. unfold M6_ModelInit.
    replace (NumRoiTac >? 1) with false
      by (symmetry; rewrite Z.gtb_ltb; apply Z.ltb_ge; lia).
    unfold bind at 1. unfold emit at 1.
    cbn [set_Tarr set_AirThresh set_SkipTimes set_wNumTms
         Tarr AirThresh WhiteMatterNorm SkipTimes wNumTms pre_N post_N].
    rewrite H2. unfold xz.
    unfold bind at 1. fold SkipTimes'. fold wNumTms'.
    rewrite (framed_calibrate GlobalTac wNumTms' ([] ++ [CallMakeRelativeArr])).
    rewrite <- Hrc, <- Hec. destruct rc as [pre post].
    destruct (NumRoiTac =? 1) eqn:E.
    - apply Z.eqb_eq in E. fold roi_is_air. unfold bind, emit. rewrite (H3 E).
      reflexivity.
    - unfold ret. cbn [app]. rewrite app_nil_r. reflexivity. }
  unfold result, events. rewrite Heq. split; reflexivity.
Qed.

End SeriesFacts.

(** The two scans of the calibration block, on a working length of at
    least one frame. *)
Lemma calibrate_scans (GlobalTac : PDOUBLE) (wNumTms : Z) (Hlen : 1 <= wNumTms) :
  let w := padd GlobalTac PASS_START in
  let SA := w 0 in
  let SB := w (wNumTms - 1) in
  let MinSi := running_min w SA 1 (Z.to_nat (wNumTms - 1)) in
  let drop_pre i := (w i - MinSi < (SA - MinSi) * PRE_N_THR)%dbl in
  let drop_post j := (w (wNumTms - 1 - j)%Z - MinSi < (SB - MinSi) * POST_N_THR)%dbl in
  let pre_N := fst (result (calibrate GlobalTac wNumTms)) in
  let post_N := snd (result (calibrate GlobalTac wNumTms)) in
  (1 <= pre_N <= wNumTms /\
   (forall i, 1 <= i < pre_N -> drop_pre i = false) /\
   (pre_N = wNumTms \/ drop_pre pre_N = true)) /\
  (1 <= post_N <= wNumTms /\
   (forall j, 1 <= j < post_N -> drop_post j = false) /\
   (post_N = wNumTms \/ drop_post post_N = true)) /\
  Forall (fun e => is_read e = true) (events (calibrate GlobalTac wNumTms)).
Proof.
  intros w SA SB MinSi drop_pre drop_post pre_N post_N.
  assert (Hn : Z.of_nat (Z.to_nat (wNumTms - 1)) = wNumTms - 1) by lia.
  destruct (calibrate_spec GlobalTac wNumTms)
    as (pre & post & l1 & l2 & Heq & (Hr1 & Hw1 & Hs1) & (Hr2 & Hw2 & Hs2) & Hl).
  subst pre_N post_N. unfold result, events. rewrite Heq. cbn [fst snd].
  rewrite Hn in *.
  split; [ | split].
  - split; [lia | split; [exact Hw1 | ]].
    destruct Hs1 as [Hs1 | Hs1]; [left; lia | right; exact Hs1].
  - split; [lia | split; [exact Hw2 | ]].
    destruct Hs2 as [Hs2 | Hs2]; [left; lia | right; exact Hs2].
  - apply Forall_is_read_map.
Qed.

(** ** Calibration: the claims *)

(** C7, as stated, fails: the scans do not start at index 0 of the global
    curve. On a global curve of ten samples with three skipped frames the
    source finds [(pre_N, post_N) = (1, 3)]; the calibration of the
    specification finds [(5, 4)] on the global curve and [(2, 4)] on the
    curve without its skipped frames; at index 1, the [pre_N] of the
    source, the global curve has not dropped below the threshold. *)
Lemma calibrate_not_from_index_0 :
  let G := [100; 100; 200; 100; 100; 10; 100; 100; 100; 100]%float in
  let NumTms := 10 in
  let SkipTimes := 3 in
  result (calibrate (of_list G) (NumTms - SkipTimes)) = (1, 3) /\
  Spec.Calibrate G (NumTms - SkipTimes) = (5, 4) /\
  Spec.Calibrate (skipn 3 G) (NumTms - SkipTimes) = (2, 4) /\
  result (calibrate (of_list G) (NumTms - SkipTimes)) <> Spec.Calibrate G (NumTms - SkipTimes) /\
  (of_list G 1 - Spec.list_min G < (of_list G 0 - Spec.list_min G) * 0.95%float)%dbl = false.
Proof. vm_compute. repeat split; try reflexivity. discriminate. Qed.

(** C7, amended. When the skipped frames cover the shift
    ([PASS_START <= SkipTimes], so that the window lies inside the global
    curve), the calibration works on the window
    [w[i] = GlobalTac[PASS_START + i]], [0 <= i < wNumTms], with
    [wNumTms = NumTms - SkipTimes >= 1]. With [SA = w[0]],
    [SB = w[wNumTms - 1]] and [MinSi] the running minimum of the window (a
    sample of the window, and below or equal to every sample when none is
    a NaN), [pre_N] is the first index [i >= 1] with
    [w[i] - MinSi < (SA - MinSi) * 0.95], or [wNumTms] when there is none,
    and [post_N] is the first [j >= 1] with
    [w[wNumTms - 1 - j] - MinSi < (SB - MinSi) * 0.95], or [wNumTms]. The
    block does nothing but read elements of the global curve. *)
Theorem calibrate_window
    (GlobalTac : PDOUBLE) (NumTms SkipTimes : Z)
    (Hskip : PASS_START <= SkipTimes) (Hlen : 1 <= NumTms - SkipTimes) :
  let wNumTms := NumTms - SkipTimes in
  let w := padd GlobalTac PASS_START in
  let SA := w 0 in
  let SB := w (wNumTms - 1) in
  let MinSi := running_min w SA 1 (Z.to_nat (wNumTms - 1)) in
  let drop_pre i := (w i - MinSi < (SA - MinSi) * PRE_N_THR)%dbl in
  let drop_post j := (w (wNumTms - 1 - j)%Z - MinSi < (SB - MinSi) * POST_N_THR)%dbl in
  let pre_N := fst (result (calibrate GlobalTac wNumTms)) in
  let post_N := snd (result (calibrate GlobalTac wNumTms)) in
  (exists k, 0 <= k < wNumTms /\ MinSi = w k) /\
  ((forall i, 0 <= i < wNumTms -> Dbl.is_nan (w i) = false) ->
   forall i, 0 <= i < wNumTms -> (w i < MinSi)%dbl = false) /\
  (1 <= pre_N <= wNumTms /\
   (forall i, 1 <= i < pre_N -> drop_pre i = false) /\
   (pre_N = wNumTms \/ drop_pre pre_N = true)) /\
  (1 <= post_N <= wNumTms /\
   (forall j, 1 <= j < post_N -> drop_post j = false) /\
   (post_N = wNumTms \/ drop_post post_N = true)) /\
  (forall e, In e (events (calibrate GlobalTac wNumTms)) ->
     exists i, e = RdGlobalTac i /\ in_bounds NumTms i).
Proof.
  intros wNumTms w SA SB MinSi drop_pre drop_post pre_N post_N.
  split; [ | split; [ | split; [ | split]]].
  - destruct (running_min_attained w (Z.to_nat (wNumTms - 1)) 1 SA) as [H | (i & Hi & H)].
    + exists 0. split; [lia | exact H].
    + exists i. split; [lia | exact H].
  - intros Hnan i Hi.
    destruct (running_min_least w (Z.to_nat (wNumTms - 1)) 1 SA) as [Hlow Hall].
    + apply Hnan. lia.
    + intros j Hj. apply Hnan. lia.
    + destruct (Z.eq_dec i 0) as [-> | Hne]; [apply Hlow, lt_irrefl | apply Hall; lia].
  - exact (proj1 (calibrate_scans GlobalTac wNumTms Hlen)).
  - exact (proj1 (proj2 (calibrate_scans GlobalTac wNumTms Hlen))).
  - intros e He.
    destruct (calibrate_reads_in_window GlobalTac wNumTms Hlen e He) as (i & -> & Hi).
    exists i. split; [reflexivity | ]. unfold in_bounds. subst wNumTms.
    unfold PASS_START in *. lia.
Qed.

(** The amended C7 on a global curve of ten samples with three skipped
    frames. *)
Lemma calibrate_window_witness :
  let G := of_list [100; 100; 200; 100; 100; 10; 100; 100; 100; 100]%float in
  let pre_N := fst (result (calibrate G (10 - 3))) in
  1 <= pre_N <= 10 - 3 /\
  (forall e, In e (events (calibrate G (10 - 3))) ->
     exists i, e = RdGlobalTac i /\ in_bounds 10 i).
Proof.
  intros G pre_N.
  assert (H2 : PASS_START <= 3) by (unfold PASS_START; lia).
  assert (H1 : 1 <= 10 - 3) by lia.
  destruct (calibrate_window G 10 3 H2 H1) as (_ & _ & (Hr & _ & _) & _ & Hb).
  split; [exact Hr | exact Hb].
Defined.

Section FlatWindow.

Variables (GlobalTac : PDOUBLE) (wNumTms : Z) (c : double).
Hypothesis Hlen : 1 <= wNumTms.
Hypothesis flat : forall i, 0 <= i < wNumTms -> GlobalTac (PASS_START + i) = c.

Lemma running_min_flat k : forall from,
  0 <= from -> from + Z.of_nat k <= wNumTms ->
  running_min (padd GlobalTac PASS_START) c from k = c.
Proof.
  induction k as [ | k IH]; intros from H0 Hk; cbn [running_min]; [reflexivity | ].
  unfold padd at 2. rewrite (flat from) by lia.
  replace (dmin c c) with c by (unfold dmin; destruct (c < c)%dbl; reflexivity).
  apply IH; lia.
Qed.

(** On a flat window both scans run to the end of the working length. *)
Lemma calibrate_flat : result (calibrate GlobalTac wNumTms) = (wNumTms, wNumTms).
Proof.
  destruct (calibrate_scans GlobalTac wNumTms Hlen)
    as ((Hr1 & _ & Hs1) & (Hr2 & _ & Hs2) & _).
  assert (HSA : padd GlobalTac PASS_START 0 = c) by (unfold padd; apply flat; lia).
  assert (HSB : padd GlobalTac PASS_START (wNumTms - 1) = c)
    by (unfold padd; apply flat; lia).
  rewrite HSA, HSB in *. rewrite running_min_flat in * by lia.
  destruct (result (calibrate GlobalTac wNumTms)) as [pre post]. cbn [fst snd] in *.
  f_equal.
  - destruct Hs1 as [Hs1 | Hs1]; [exact Hs1 | ].
    destruct (Z.eq_dec pre wNumTms) as [E | E]; [exact E | ].
    unfold padd in Hs1. rewrite (flat pre) in Hs1 by lia.
    rewrite flat_threshold_test in Hs1. discriminate Hs1.
  - destruct Hs2 as [Hs2 | Hs2]; [exact Hs2 | ].
    destruct (Z.eq_dec post wNumTms) as [E | E]; [exact E | ].
    unfold padd in Hs2. rewrite (flat (wNumTms - 1 - post)) in Hs2 by lia.
    change POST_N_THR with PRE_N_THR in Hs2.
    rewrite flat_threshold_test in Hs2. discriminate Hs2.
Qed.

End FlatWindow.

Lemma in_map_RdGlobalTac i l : In (RdGlobalTac i) (map RdGlobalTac l) <-> In i l.
Proof.
  rewrite in_map_iff. split.
  - intros (j & Hj & Hin). injection Hj as ->. exact Hin.
  - intros H. exists i. split; [reflexivity | exact H].
Qed.

Section InitReads.

Variables (NumTms : Z) (AbsTarr GlobalTac : PDOUBLE) (demp_NoiseLevel : double).
Variables (NumRoiTac : Z) (RoiTacArr : Z -> PDOUBLE) (M6_FreeParm : PDOUBLE).
Variable PR_MakeRelativeArr : PDOUBLE -> Z -> option PDOUBLE.
Variable IsAir_ByMin : PDOUBLE -> double -> bool.
Variables (stack_Tac : PDOUBLE) (stack_Integral : double).

(** Once the time axis is built, the calibration block runs, whatever the
    ROI check says afterwards; nothing else reads the global curve. *)
Lemma M6_ModelInit_reaches_calibration st T :
  NumRoiTac <= 1 ->
  PR_MakeRelativeArr AbsTarr NumTms = Some T ->
  exists tl,
    events (M6_ModelInit NumTms AbsTarr GlobalTac demp_NoiseLevel NumRoiTac RoiTacArr
              M6_FreeParm PR_MakeRelativeArr IsAir_ByMin stack_Tac stack_Integral st)
    = CallMakeRelativeArr
        :: events (calibrate GlobalTac (NumTms - Dbl.to_int (M6_FreeParm 1))) ++ tl /\
    (forall i, ~ In (RdGlobalTac i) tl).
Proof.
  intros H1 H2.
  remember (events (calibrate GlobalTac (NumTms - Dbl.to_int (M6_FreeParm 1)))) as ec eqn:Hec.
  unfold events at 1. unfold M6_ModelInit.
  replace (NumRoiTac >? 1) with false
    by (symmetry; rewrite Z.gtb_ltb; apply Z.ltb_ge; lia).
  unfold bind at 1. unfold emit at 1.
  cbn [set_Tarr set_AirThresh set_SkipTimes set_wNumTms
       Tarr AirThresh WhiteMatterNorm SkipTimes wNumTms pre_N post_N].
  rewrite H2. unfold xz.
  unfold bind at 1.
  rewrite (framed_calibrate GlobalTac _ ([] ++ [CallMakeRelativeArr])).
  rewrite <- Hec.
  destruct (result (calibrate GlobalTac (NumTms - Dbl.to_int (M6_FreeParm 1)))) as [pre post].
  destruct (NumRoiTac =? 1).
  - unfold bind, emit, xmsg.
    destruct (IsAir_ByMin _ _).
    + exists [CallIsAir; Msg "White Matter ROI TAC is incorrect"].
      split; [unfold bind, emit, ret; cbn [snd app]; rewrite <- app_assoc; reflexivity | ].
      intros i [H | [H | []]]; discriminate H.
    + exists [CallIsAir]. split; [unfold ret; cbn [snd app]; reflexivity | ].
      intros i [H | []]; discriminate H.
  - exists []. split; [unfold ret; cbn [snd app]; rewrite app_nil_r; reflexivity | intros i []].
Qed.

End InitReads.

(** [(int)(M6_FreeParmDefault[1])] is [0]. *)
Lemma default_SkipTimes : Dbl.to_int (M6_FreeParmDefault 1) = 0.
Proof. reflexivity. Qed.

(** C10. Once [M6_ModelInit] has built the time axis (at most one ROI), it
    reads [GlobalTac] at every index [PASS_START + t], [0 <= t <= wNumTms - 1],
    and at index [NumTms + 1 - SkipTimes], the last of them; on a working
    length of at least one frame it reads no index outside
    [PASS_START .. NumTms + 1 - SkipTimes]. With [SkipTimes < 2] the index
    [NumTms + 1 - SkipTimes] lies beyond the last element [NumTms - 1] of
    the global curve, and with [SkipTimes = 0] and at least two frames the
    two elements [NumTms] and [NumTms + 1] beyond it are both read. *)
Theorem M6_ModelInit_reads_past_end
    (NumTms : Z) (AbsTarr GlobalTac : PDOUBLE) (demp_NoiseLevel : double)
    (NumRoiTac : Z) (RoiTacArr : Z -> PDOUBLE) (M6_FreeParm : PDOUBLE)
    (PR_MakeRelativeArr : PDOUBLE -> Z -> option PDOUBLE)
    (IsAir_ByMin : PDOUBLE -> double -> bool)
    (stack_Tac : PDOUBLE) (stack_Integral : double) (st : Statics) (T : PDOUBLE)
    (Hroi : NumRoiTac <= 1)
    (Halloc : PR_MakeRelativeArr AbsTarr NumTms = Some T) :
  let SkipTimes := Dbl.to_int (M6_FreeParm 1) in
  let wNumTms := NumTms - SkipTimes in
  let tr := events (M6_ModelInit NumTms AbsTarr GlobalTac demp_NoiseLevel NumRoiTac RoiTacArr
                      M6_FreeParm PR_MakeRelativeArr IsAir_ByMin stack_Tac stack_Integral st) in
  (forall t, 0 <= t <= wNumTms - 1 -> In (RdGlobalTac (PASS_START + t)) tr) /\
  In (RdGlobalTac (NumTms + 1 - SkipTimes)) tr /\
  (1 <= wNumTms ->
   forall i, In (RdGlobalTac i) tr -> PASS_START <= i <= NumTms + 1 - SkipTimes) /\
  (SkipTimes < 2 ->
   exists i, In (RdGlobalTac i) tr /\ NumTms - 1 < i /\ ~ in_bounds NumTms i) /\
  (SkipTimes = 0 -> 2 <= NumTms ->
   In (RdGlobalTac NumTms) tr /\ In (RdGlobalTac (NumTms + 1)) tr /\
   ~ in_bounds NumTms NumTms /\ ~ in_bounds NumTms (NumTms + 1)).
Proof.
  intros SkipTimes wNumTms tr.
  destruct (M6_ModelInit_reaches_calibration NumTms AbsTarr GlobalTac demp_NoiseLevel
              NumRoiTac RoiTacArr M6_FreeParm PR_MakeRelativeArr IsAir_ByMin
              stack_Tac stack_Integral st T Hroi Halloc) as (tl & Htr & Htl).
  fold SkipTimes in Htr. fold wNumTms in Htr. fold tr in Htr.
  destruct (calibrate_events GlobalTac wNumTms) as (l & Hev & Hl).
  rewrite Hev in Htr. clear Hev.
  assert (Hin : forall i, In (RdGlobalTac i) tr <->
                  In i ([PASS_START; PASS_START + (wNumTms - 1)]
                        ++ zseq (PASS_START + 1) (Z.to_nat (wNumTms - 1)) ++ l)).
  { intros i. rewrite Htr. split.
    - intros [H | H]; [discriminate H | ].
      apply in_app_or in H. destruct H as [H | H];
        [apply in_map_RdGlobalTac; exact H | destruct (Htl i H)].
    - intros H. right. apply in_or_app. left. apply in_map_RdGlobalTac. exact H. }
  assert (Hwin : forall t, 0 <= t <= wNumTms - 1 -> In (RdGlobalTac (PASS_START + t)) tr).
  { intros t Ht. apply Hin. destruct (Z.eq_dec t 0) as [-> | Hne].
    - apply in_or_app. left. left. lia.
    - apply in_or_app. right. apply in_or_app. left. apply in_zseq. lia. }
  assert (Hlast : In (RdGlobalTac (NumTms + 1 - SkipTimes)) tr).
  { apply Hin. apply in_or_app. left. right. left. unfold PASS_START. lia. }
  split; [exact Hwin | split; [exact Hlast | split; [ | split]]].
  - intros Hw i Hi. apply Hin in Hi. unfold PASS_START in *.
    apply in_app_or in Hi. destruct Hi as [[<- | [<- | []]] | Hi]; [lia | lia | ].
    apply in_app_or in Hi. destruct Hi as [Hi | Hi].
    + apply in_zseq in Hi. lia.
    + apply Hl in Hi. lia.
  - intros Hskip. exists (NumTms + 1 - SkipTimes).
    split; [exact Hlast | split; [lia | unfold in_bounds; lia]].
  - intros Hskip Hn.
    split; [ | split; [ | unfold in_bounds; split; lia]].
    + replace NumTms with (PASS_START + (wNumTms - 2)) at 1
        by (unfold PASS_START; lia).
      apply Hwin. lia.
    + replace (NumTms + 1) with (NumTms + 1 - SkipTimes) by lia. exact Hlast.
Qed.

(** C10 on a series of nine frames with the default parameters. *)
Lemma M6_ModelInit_reads_past_end_witness :
  let G := of_list (repeat 100%float 9) in
  let tr := events (M6_ModelInit 9 Example.seconds G 1%float 0 (fun _ => Example.zeros)
                      M6_FreeParmDefault Example.MakeRelativeArr Example.never_air
                      Example.zeros ZERO Example.statics0) in
  In (RdGlobalTac 9) tr /\ In (RdGlobalTac (9 + 1)) tr /\
  ~ in_bounds 9 9 /\ ~ in_bounds 9 (9 + 1).
Proof.
  intros G tr.
  refine (proj2 (proj2 (proj2 (proj2
    (M6_ModelInit_reads_past_end 9 Example.seconds G 1%float 0 (fun _ => Example.zeros)
       M6_FreeParmDefault Example.MakeRelativeArr Example.never_air
       Example.zeros ZERO Example.statics0 _ _ _)))) _ _).
  - lia.
  - reflexivity.
  - reflexivity.
  - lia.
Defined.

(** ** Degenerate calibration and the white matter norm *)

Lemma Forall_read_not_msg tr :
  Forall (fun e => is_read e = true) tr -> Forall (fun e => is_msg e = false) tr.
Proof.
  apply Forall_impl. intros e He. destruct e; (reflexivity || discriminate He).
Qed.

(** C8, as stated, fails: on a flat global curve of nine frames with two
    skipped frames and no ROI, the scans consume the whole working length
    ([pre_N = post_N = wNumTms = 7]) and [M6_ModelInit] still answers [true]
    and shows no message. *)
Lemma degenerate_calibration_accepted :
  let G := of_list (repeat 100%float 9) in
  let r := M6_ModelInit 9 Example.seconds G 1%float 0 (fun _ => Example.zeros)
             (of_list [20; 2]%float) Example.MakeRelativeArr Example.never_air
             Example.zeros ZERO Example.statics0 in
  let st := snd (result r) in
  (pre_N st = 7 /\ post_N st = 7 /\ wNumTms st = 7) /\
  pre_N st + post_N st >= wNumTms st /\
  ~ (fst (result r) = false) /\
  existsb is_msg (events r) = false.
Proof. vm_compute. repeat split; try reflexivity; discriminate. Qed.

(** C8, amended. [M6_ModelInit] has no guard on [pre_N + post_N]. On a
    flat working window of the global curve (every sample equal), with at
    most one ROI, the time axis built and the ROI curve, if there is one,
    not found to be air, it answers [true], shows no message and stores
    [pre_N = post_N = wNumTms]: the degenerate window lengths, with
    [pre_N + post_N >= wNumTms], are what the voxels are processed with. *)
Theorem M6_ModelInit_flat_window
    (NumTms : Z) (AbsTarr GlobalTac : PDOUBLE) (demp_NoiseLevel : double)
    (NumRoiTac : Z) (RoiTacArr : Z -> PDOUBLE) (M6_FreeParm : PDOUBLE)
    (PR_MakeRelativeArr : PDOUBLE -> Z -> option PDOUBLE)
    (IsAir_ByMin : PDOUBLE -> double -> bool)
    (stack_Tac : PDOUBLE) (stack_Integral : double) (st : Statics) (T : PDOUBLE)
    (c : double)
    (Hroi : NumRoiTac <= 1)
    (Halloc : PR_MakeRelativeArr AbsTarr NumTms = Some T)
    (Hair : NumRoiTac = 1 ->
            IsAir_ByMin (fabs_loop (RoiTacArr 0) (Z.to_nat NumTms) 0 stack_Tac)
              (Dbl.of_int NumTms) = false)
    (Hlen : 1 <= NumTms - Dbl.to_int (M6_FreeParm 1))
    (Hflat : forall i, 0 <= i < NumTms - Dbl.to_int (M6_FreeParm 1) ->
                       GlobalTac (PASS_START + i) = c) :
  let r := M6_ModelInit NumTms AbsTarr GlobalTac demp_NoiseLevel NumRoiTac RoiTacArr
             M6_FreeParm PR_MakeRelativeArr IsAir_ByMin stack_Tac stack_Integral st in
  let st' := snd (result r) in
  fst (result r) = true /\
  wNumTms st' = NumTms - Dbl.to_int (M6_FreeParm 1) /\
  pre_N st' = wNumTms st' /\ post_N st' = wNumTms st' /\
  pre_N st' + post_N st' >= wNumTms st' /\
  Forall (fun e => is_msg e = false) (events r).
Proof.
  intros r st'.
  destruct (M6_ModelInit_success NumTms AbsTarr GlobalTac demp_NoiseLevel NumRoiTac
              RoiTacArr M6_FreeParm PR_MakeRelativeArr IsAir_ByMin stack_Tac
              stack_Integral st T Hroi Halloc Hair) as [Hres Hev].
  fold r in Hres, Hev. subst st'. rewrite Hres, Hev. cbn [fst snd wNumTms pre_N post_N].
  rewrite (calibrate_flat GlobalTac _ c Hlen Hflat). cbn [fst snd].
  split; [reflexivity | split; [reflexivity | split; [reflexivity | split; [reflexivity | ]]]].
  split; [lia | ].
  constructor; [reflexivity | ]. apply Forall_app. split.
  - apply Forall_read_not_msg.
    exact (proj2 (proj2 (calibrate_scans GlobalTac _ Hlen))).
  - destruct (NumRoiTac =? 1); repeat constructor.
Qed.

(** The amended C8 on the flat global curve of nine frames with two
    skipped frames. *)
Lemma M6_ModelInit_flat_window_witness :
  let G := of_list (repeat 100%float 9) in
  let r := M6_ModelInit 9 Example.seconds G 1%float 0 (fun _ => Example.zeros)
             (of_list [20; 2]%float) Example.MakeRelativeArr Example.never_air
             Example.zeros ZERO Example.statics0 in
  let st' := snd (result r) in
  fst (result r) = true /\
  wNumTms st' = 9 - Dbl.to_int (of_list [20; 2]%float 1) /\
  pre_N st' = wNumTms st' /\ post_N st' = wNumTms st' /\
  pre_N st' + post_N st' >= wNumTms st' /\
  Forall (fun e => is_msg e = false) (events r).
Proof.
  apply (M6_ModelInit_flat_window 9 Example.seconds (of_list (repeat 100%float 9)) 1%float 0
           (fun _ => Example.zeros) (of_list [20; 2]%float) Example.MakeRelativeArr
           Example.never_air Example.zeros ZERO Example.statics0
           (fun i => (Example.seconds i - Example.seconds 0)%dbl) 100%float).
  - lia.
  - reflexivity.
  - intros _. reflexivity.
  - vm_compute. discriminate.
  - change (Dbl.to_int (of_list [20; 2]%float 1)) with 2. intros i Hi.
    assert (H : i = 0 \/ i = 1 \/ i = 2 \/ i = 3 \/ i = 4 \/ i = 5 \/ i = 6) by lia.
    repeat (destruct H as [-> | H]; [reflexivity | ]). subst i. reflexivity.
Defined.

(** C5. With one ROI curve supplied, the norm that [M6_ModelInit] stores is
    the reciprocal of what the stack held in [Integral]: it is the same
    for every ROI curve, and neither [PR_ArrStats] nor [CalculateIntegral]
    is called, so the pipeline is not run on the ROI curve. With no ROI
    curve the norm is [1.0]. *)
Theorem M6_ModelInit_norm_from_stack
    (RoiTac : PDOUBLE) (stack_Integral : double) :
  let G := of_list [100; 100; 100; 100; 60; 40; 50; 100; 100]%float in
  let init NumRoiTac :=
    M6_ModelInit 9 Example.seconds G 1%float NumRoiTac (fun _ => RoiTac)
      (of_list [20; 2]%float) Example.MakeRelativeArr Example.never_air
      Example.zeros stack_Integral Example.statics0 in
  (fst (result (init 1)) = true /\
   WhiteMatterNorm (snd (result (init 1))) = (ONE / stack_Integral)%dbl /\
   events (init 1)
   = CallMakeRelativeArr :: events (calibrate G 7) ++ [CallIsAir]) /\
  (fst (result (init 0)) = true /\
   WhiteMatterNorm (snd (result (init 0))) = ONE).
Proof.
  intros G init. split.
  - destruct (M6_ModelInit_success 9 Example.seconds G 1%float 1 (fun _ => RoiTac)
                (of_list [20; 2]%float) Example.MakeRelativeArr Example.never_air
                Example.zeros stack_Integral Example.statics0
                (fun i => (Example.seconds i - Example.seconds 0)%dbl))
      as [Hres Hev]; [lia | reflexivity | reflexivity | ].
    subst init. cbv beta. rewrite Hres, Hev.
    change (Dbl.to_int (of_list [20; 2]%float 1)) with 2.
    split; [reflexivity | split; reflexivity].
  - destruct (M6_ModelInit_success 9 Example.seconds G 1%float 0 (fun _ => RoiTac)
                (of_list [20; 2]%float) Example.MakeRelativeArr Example.never_air
                Example.zeros stack_Integral Example.statics0
                (fun i => (Example.seconds i - Example.seconds 0)%dbl))
      as [Hres Hev]; [lia | reflexivity | discriminate | ].
    subst init. cbv beta. rewrite Hres. split; reflexivity.
Qed.

(** ** The per-voxel pipeline: the paths of [M6_ModelFunc] *)

Section VoxelFacts.

Variable NumTms : Z.
Variable IsAir_ByMin : PDOUBLE -> double -> bool.
Variable PR_ArrStats : PDOUBLE -> Z -> double * double.
Variable CalculateIntegral : PDOUBLE -> PDOUBLE -> Z -> double.
Variable log : double -> double.
Variables (stack_CorrTac stack_Cx : PDOUBLE).
Variables (st : Statics) (Tac : PDOUBLE).

Let wTac : PDOUBLE := padd Tac (SkipTimes st).
Let wNumTms' : Z := NumTms - SkipTimes st.
Let wTarr : PDOUBLE := padd (deref (Tarr st)) (SkipTimes st).
Let pre_bl : double := fst (PR_ArrStats wTac (pre_N st)).
Let noise : double := snd (PR_ArrStats wTac (pre_N st)).
Let post_bl : double := fst (PR_ArrStats (padd wTac (wNumTms' - post_N st)) (post_N st)).
Let window : Z * Z :=
  FindBolusPosition (pre_N st) (post_N st) wTac wNumTms' noise pre_bl post_bl.

(** What the pipeline hands to [CalculateIntegral] on an accepted voxel. *)
Let Cx : PDOUBLE :=
  concentration log stack_Cx
    (baseline_correct stack_CorrTac wTac wTarr pre_bl post_bl (fst window) (snd window))
    pre_bl wNumTms'.

Lemma M6_ModelFunc_paths :
  M6_ModelFunc NumTms IsAir_ByMin PR_ArrStats CalculateIntegral log
    stack_CorrTac stack_Cx st Tac []
  = if IsAir_ByMin Tac (AirThresh st) then (false, [CallIsAir])
    else if fst window >=? snd window
    then (false, [CallIsAir; CallArrStats (pre_N st); CallArrStats (post_N st)])
    else (true,
          [CallIsAir; CallArrStats (pre_N st); CallArrStats (post_N st);
           CallIntegral (snd window - fst window + 1);
           CallWrite (CalculateIntegral (padd Cx (fst window)) (padd wTarr (fst window))
                        (snd window - fst window + 1)
                      * WhiteMatterNorm st)%dbl]).
Proof.
  unfold M6_ModelFunc. unfold bind at 1. unfold emit at 1.
  destruct (IsAir_ByMin Tac (AirThresh st)); [reflexivity | ].
  unfold bind at 1. unfold emit at 1.
  subst Cx window post_bl noise pre_bl. fold wTac. fold wNumTms'. fold wTarr.
  destruct (PR_ArrStats wTac (pre_N st)) as [pre_bl noise]. cbn [fst snd].
  unfold bind at 1. unfold emit at 1.
  destruct (FindBolusPosition (pre_N st) (post_N st) wTac wNumTms' noise pre_bl
              (fst (PR_ArrStats (padd wTac (wNumTms' - post_N st)) (post_N st))))
    as [b_start b_end]. cbn [fst snd].
  destruct (b_start >=? b_end); reflexivity.
Qed.

End VoxelFacts.

(** ** The per-voxel pipeline: the claims *)

(** C6. When [IsAir_ByMin] finds the raw curve to be air at the threshold
    [AirThresh], or the detected window has [start >= end],
    [M6_ModelFunc] answers [false], calls [CalculateIntegral] not at all
    and writes nothing; an air voxel is left right after the classifier,
    a voxel without a window right after the detection. *)
Theorem M6_ModelFunc_rejects
    (NumTms : Z) (IsAir_ByMin : PDOUBLE -> double -> bool)
    (PR_ArrStats : PDOUBLE -> Z -> double * double)
    (CalculateIntegral : PDOUBLE -> PDOUBLE -> Z -> double)
    (log : double -> double) (stack_CorrTac stack_Cx : PDOUBLE)
    (st : Statics) (Tac : PDOUBLE) :
  let wTac := padd Tac (SkipTimes st) in
  let wNumTms := NumTms - SkipTimes st in
  let pre_bl := fst (PR_ArrStats wTac (pre_N st)) in
  let noise := snd (PR_ArrStats wTac (pre_N st)) in
  let post_bl := fst (PR_ArrStats (padd wTac (wNumTms - post_N st)) (post_N st)) in
  let b_start :=
    fst (FindBolusPosition (pre_N st) (post_N st) wTac wNumTms noise pre_bl post_bl) in
  let b_end :=
    snd (FindBolusPosition (pre_N st) (post_N st) wTac wNumTms noise pre_bl post_bl) in
  let r := M6_ModelFunc NumTms IsAir_ByMin PR_ArrStats CalculateIntegral log
             stack_CorrTac stack_Cx st Tac in
  IsAir_ByMin Tac (AirThresh st) = true \/ b_start >= b_end ->
  result r = false /\
  existsb is_integral (events r) = false /\
  existsb is_write (events r) = false /\
  (IsAir_ByMin Tac (AirThresh st) = true -> events r = [CallIsAir]) /\
  (IsAir_ByMin Tac (AirThresh st) = false ->
   events r = [CallIsAir; CallArrStats (pre_N st); CallArrStats (post_N st)]).
Proof.
  intros wTac wNumTms pre_bl noise post_bl b_start b_end r Hrej.
  subst r. unfold result, events. rewrite M6_ModelFunc_paths.
  fold wTac. fold wNumTms. fold pre_bl. fold noise. fold post_bl.
  fold b_start. fold b_end.
  destruct (IsAir_ByMin Tac (AirThresh st)) eqn:Hair.
  - cbn. repeat split; try reflexivity. discriminate.
  - destruct Hrej as [Hrej | Hrej]; [discriminate Hrej | ].
    replace (b_start >=? b_end) with true by (symmetry; apply Z.geb_le; lia).
    cbn. repeat split; try reflexivity. discriminate.
Qed.

(** C6 on a voxel whose dip is followed by the post-baseline window at
    once: the detected window is [(6, 5)]. *)
Lemma M6_ModelFunc_rejects_witness :
  let st := mkStatics (Some Example.seconds) 20%float 1%float 0 9 3 3 in
  let Tac := of_list [99; 100; 101; 100; 100; 100; 40; 100; 100]%float in
  let r := M6_ModelFunc 9 Example.never_air Example.ArrStats Example.Integral
             Example.no_log Example.zeros Example.zeros st Tac in
  result r = false /\
  existsb is_integral (events r) = false /\
  existsb is_write (events r) = false.
Proof.
  intros st Tac r.
  destruct (M6_ModelFunc_rejects 9 Example.never_air Example.ArrStats Example.Integral
              Example.no_log Example.zeros Example.zeros st Tac) as (H1 & H2 & H3 & _).
  - right. vm_compute. discriminate.
  - split; [exact H1 | split; [exact H2 | exact H3]].
Defined.

(** An air voxel: the classifier is the only collaborator called. *)
Lemma M6_ModelFunc_air_example :
  let st := mkStatics (Some Example.seconds) 20%float 1%float 0 9 3 3 in
  let Tac := of_list [99; 100; 101; 100; 60; 40; 50; 100; 100]%float in
  M6_ModelFunc 9 Example.always_air Example.ArrStats Example.Integral
    Example.no_log Example.zeros Example.zeros st Tac []
  = (false, [CallIsAir]).
Proof. reflexivity. Qed.

Lemma corr_loop_spec (wTac wTarr : PDOUBLE) (sf b_stime : double) n : forall t C,
  (forall i, t <= i < t + Z.of_nat n ->
     corr_loop wTac wTarr sf b_stime n t C i
     = (wTac i - sf * (wTarr i - b_stime))%dbl) /\
  (forall i, ~ (t <= i < t + Z.of_nat n) ->
     corr_loop wTac wTarr sf b_stime n t C i = C i).
Proof.
  induction n as [ | n IH]; intros t C; cbn [corr_loop].
  - split; [intros i Hi; lia | reflexivity].
  - destruct (IH (t + 1)
                (store C t (wTac t - sf * (wTarr t - b_stime))%dbl)) as [Hin Hout].
    split; intros i Hi.
    + destruct (Z.eq_dec i t) as [-> | Hne].
      * rewrite Hout by lia. unfold store. rewrite Z.eqb_refl. reflexivity.
      * apply Hin. lia.
    + rewrite Hout by lia. unfold store.
      replace (i =? t) with false by (symmetry; apply Z.eqb_neq; lia). reflexivity.
Qed.

(** C9. With [slope = (post_bl - pre_bl) / (wTarr[b_end] - wTarr[b_start])],
    the corrected curve is [wTac[t] - slope * (wTarr[t] - wTarr[b_start])]
    at every [t] of [b_start .. b_end], and outside these indices the
    buffer [CorrTac] keeps what it held. *)
Theorem baseline_correct_window
    (stack_CorrTac wTac wTarr : PDOUBLE) (pre_bl post_bl : double) (b_start b_end : Z) :
  let slope := ((post_bl - pre_bl) / (wTarr b_end - wTarr b_start))%dbl in
  let CorrTac := baseline_correct stack_CorrTac wTac wTarr pre_bl post_bl b_start b_end in
  forall t,
    (b_start <= t <= b_end ->
     CorrTac t = (wTac t - slope * (wTarr t - wTarr b_start))%dbl) /\
    (~ (b_start <= t <= b_end) -> CorrTac t = stack_CorrTac t).
Proof.
  intros slope CorrTac t. subst CorrTac. unfold baseline_correct.
  destruct (corr_loop_spec wTac wTarr slope (wTarr b_start)
              (Z.to_nat (b_end + 1 - b_start)) b_start stack_CorrTac) as [Hin Hout].
  fold slope. split; intros Ht; [apply Hin | apply Hout]; lia.
Qed.

(** C9 on a curve of nine samples and the window [4 .. 6]. *)
Lemma baseline_correct_window_witness :
  let wTac := of_list [99; 100; 101; 100; 60; 40; 50; 100; 100]%float in
  let wTarr := Example.seconds in
  let CorrTac := baseline_correct Example.zeros wTac wTarr 100%float 98%float 4 6 in
  CorrTac 5
  = (wTac 5 - (98%float - 100%float) / (wTarr 6 - wTarr 4) * (wTarr 5 - wTarr 4))%dbl /\
  CorrTac 7 = Example.zeros 7.
Proof.
  intros wTac wTarr CorrTac. split.
  - apply (baseline_correct_window Example.zeros wTac wTarr 100%float 98%float 4 6 5). lia.
  - apply (baseline_correct_window Example.zeros wTac wTarr 100%float 98%float 4 6 7). lia.
Defined.

Lemma conc_loop_spec (log : double -> double) (CorrTac : PDOUBLE) (S0 : double) n :
  forall t Cx,
  (forall i, t <= i < t + Z.of_nat n ->
     conc_loop log CorrTac S0 n t Cx i = conc_sample log (CorrTac i) S0) /\
  (forall i, ~ (t <= i < t + Z.of_nat n) -> conc_loop log CorrTac S0 n t Cx i = Cx i).
Proof.
  induction n as [ | n IH]; intros t Cx; cbn [conc_loop].
  - split; [intros i Hi; lia | reflexivity].
  - destruct (IH (t + 1) (store Cx t (conc_sample log (CorrTac t) S0))) as [Hin Hout].
    split; intros i Hi.
    + destruct (Z.eq_dec i t) as [-> | Hne].
      * rewrite Hout by lia. unfold store. rewrite Z.eqb_refl. reflexivity.
      * apply Hin. lia.
    + rewrite Hout by lia. unfold store.
      replace (i =? t) with false by (symmetry; apply Z.eqb_neq; lia). reflexivity.
Qed.

(** C4. For every sample [t] of the working range, with
    [ratio = CorrTac[t] / S0] and [S0 = pre_bl], the concentration is
    [-log(ratio)] exactly when [0.01 < ratio] and [ratio < 1.0], and [0]
    otherwise: in particular for [ratio >= 1.0] (so for [ratio = 1.0]), for
    [ratio <= 0.01] and for a NaN. The logarithm is taken of no other
    ratio. *)
Theorem concentration_clamp
    (log : double -> double) (stack_Cx CorrTac : PDOUBLE) (pre_bl : double)
    (wNumTms t : Z) (Ht : 0 <= t < wNumTms) :
  let S0 := pre_bl in
  let ratio := (CorrTac t / S0)%dbl in
  let Cx := concentration log stack_Cx CorrTac pre_bl wNumTms in
  ((ratio > 0.01%float)%dbl = true /\ (ratio < 1%float)%dbl = true ->
   Cx t = (- log ratio)%dbl) /\
  (~ ((ratio > 0.01%float)%dbl = true /\ (ratio < 1%float)%dbl = true) -> Cx t = 0%float) /\
  ((ratio >= 1%float)%dbl = true -> Cx t = 0%float) /\
  (ratio = 1%float -> Cx t = 0%float) /\
  ((ratio <= 0.01%float)%dbl = true -> Cx t = 0%float) /\
  (Dbl.is_nan ratio = true -> Cx t = 0%float).
Proof.
  intros S0 ratio Cx.
  assert (HCx : Cx t = conc_sample log (CorrTac t) S0).
  { subst Cx. unfold concentration.
    destruct (conc_loop_spec log CorrTac S0 (Z.to_nat wNumTms) 0 stack_Cx) as [Hin _].
    apply Hin. lia. }
  rewrite HCx. unfold conc_sample. fold ratio. change ONE with 1%float. change ZERO with 0%float.
  assert (Hge : (ratio >= 1%float)%dbl = true ->
                (if (ratio > 0.01%float)%dbl && (ratio < 1%float)%dbl
                 then (- log ratio)%dbl else 0%float) = 0%float).
  { intros H. unfold Dbl.ge in H. rewrite (le_not_lt _ _ H), andb_false_r. reflexivity. }
  repeat split.
  - intros [H1 H2]. rewrite H1, H2. reflexivity.
  - intros H. destruct (ratio > 0.01%float)%dbl, (ratio < 1%float)%dbl;
      try reflexivity. exfalso. apply H. split; reflexivity.
  - exact Hge.
  - intros H. apply Hge. rewrite H. reflexivity.
  - intros H. change (ratio > 0.01%float)%dbl with (0.01%float < ratio)%dbl.
    rewrite (le_not_lt _ _ H). reflexivity.
  - intros H. rewrite (nan_not_lt _ _ H), andb_false_r. reflexivity.
Qed.

(** C4 on a corrected curve whose sample 3 equals the baseline: the ratio
    is exactly [1.0] and the concentration is [0]. *)
Lemma concentration_clamp_witness :
  let CorrTac := of_list [99; 100; 101; 100; 60; 40; 50; 100; 100]%float in
  (CorrTac 3 / 100%float)%dbl = 1%float /\
  concentration Example.no_log Example.zeros CorrTac 100%float 9 3 = 0%float.
Proof.
  intros CorrTac. split; [reflexivity | ].
  refine (proj1 (proj2 (proj2 (proj2
    (concentration_clamp Example.no_log Example.zeros CorrTac 100%float 9 3 _)))) _).
  - lia.
  - reflexivity.
Defined.

(** * Further properties of the code of Model 6 *)

(** ** [ArrayIsGreater] *)

Lemma ArrayIsGreater_loop_spec (Arr : PDOUBLE) (Val : double) n : forall i,
  ArrayIsGreater_loop Arr Val n i = true <->
  (forall k, i <= k < i + Z.of_nat n -> (Arr k <= Val)%dbl = false).
Proof.
  induction n as [ | n IH]; intros i; cbn [ArrayIsGreater_loop].
  - split; [intros _ k Hk; lia | reflexivity].
  - destruct (Arr i <= Val)%dbl eqn:E.
    + split; [discriminate | ]. intros H. rewrite <- E. symmetry. apply H. lia.
    + rewrite IH. split; intros H k Hk.
      * destruct (Z.eq_dec k i) as [-> | Hne]; [exact E | apply H; lia].
      * apply H. lia.
Qed.

(** X1. [ArrayIsGreater] answers [true] exactly when no element of
    [Arr[0 .. Num-1]] compares [<= Val]; and when it answers [false] there
    is a first such element, before which every element is above [Val] or
    a NaN. An empty range ([Num <= 0]) gives [true]. *)
Theorem ArrayIsGreater_iff (Arr : PDOUBLE) (Num : Z) (Val : double) :
  (ArrayIsGreater Arr Num Val = true <->
   forall k, 0 <= k < Num -> (Arr k <= Val)%dbl = false) /\
  (ArrayIsGreater Arr Num Val = false <->
   exists k, 0 <= k < Num /\ (Arr k <= Val)%dbl = true /\
             ArrayIsGreater Arr k Val = true) /\
  (Num <= 0 -> ArrayIsGreater Arr Num Val = true).
Proof.
  assert (Htrue : forall N, ArrayIsGreater Arr N Val = true <->
                    forall k, 0 <= k < N -> (Arr k <= Val)%dbl = false).
  { intros N. unfold ArrayIsGreater. rewrite ArrayIsGreater_loop_spec.
    split; intros H k Hk; apply H; lia. }
  split; [apply Htrue | split].
  - split.
    + intros Hf.
      assert (Hex : forall n, (Z.of_nat n <= Z.max 0 Num) ->
                (forall k, 0 <= k < Z.of_nat n -> (Arr k <= Val)%dbl = false) \/
                exists k, 0 <= k < Z.of_nat n /\ (Arr k <= Val)%dbl = true /\
                          ArrayIsGreater Arr k Val = true).
      { induction n as [ | n IHn]; intros Hn.
        - left. intros k Hk. lia.
        - destruct IHn as [Hall | Hsome]; [lia | | ].
          + destruct (Arr (Z.of_nat n) <= Val)%dbl eqn:E.
            * right. exists (Z.of_nat n). split; [lia | split; [exact E | ]].
              apply Htrue. exact Hall.
            * left. intros k Hk. destruct (Z.eq_dec k (Z.of_nat n)) as [-> | Hne];
                [exact E | apply Hall; lia].
          + right. destruct Hsome as (k & Hk & Hle & Hbefore).
            exists k. split; [lia | split; assumption]. }
      destruct (Hex (Z.to_nat Num)) as [Hall | (k & Hk & Hle & Hbefore)]; [lia | | ].
      * assert (Ht : ArrayIsGreater Arr Num Val = true)
          by (apply Htrue; intros k Hk; apply Hall; lia).
        rewrite Ht in Hf. discriminate Hf.
      * exists k. split; [lia | split; assumption].
    + intros (k & Hk & Hle & _).
      destruct (ArrayIsGreater Arr Num Val) eqn:E; [ | reflexivity].
      rewrite (proj1 (Htrue Num) E k Hk) in Hle. discriminate Hle.
  - intros Hn. apply Htrue. intros k Hk. lia.
Qed.

(** ** The bolus detector: the shape of its answer *)

Lemma nan_not_lt_right (x y : double) : Dbl.is_nan y = true -> (x < y)%dbl = false.
Proof.
  intros H. unfold Dbl.lt. rewrite ltb_spec, (is_nan_true y H).
  unfold SFltb. destruct (Prim2SF x) as [s | s | | s m e]; reflexivity.
Qed.

Lemma sub_nan_right (x y : double) : Dbl.is_nan y = true -> Dbl.is_nan (x - y)%dbl = true.
Proof.
  intros H. unfold Dbl.is_nan, PrimFloat.is_nan.
  rewrite FloatAxioms.eqb_spec, sub_spec, (is_nan_true y H). unfold SF64sub.
  destruct (Prim2SF x) as [s | s | | s m e]; reflexivity.
Qed.

(** What every answer of [FindBolusPosition] looks like. *)
Lemma FindBolusPosition_shape
    (pre_N post_N : Z) (wTac : PDOUBLE) (wNumTms : Z) (noise pre_bl post_bl : double) :
  let peak := snd (find_peak wTac wNumTms) in
  let Last := wNumTms - post_N in
  let w := FindBolusPosition pre_N post_N wTac wNumTms noise pre_bl post_bl in
  0 <= peak < Z.max 1 wNumTms /\
  Z.min peak pre_N <= fst w <= peak /\
  exists stop, peak + 2 <= stop <= Z.max (peak + 2) Last /\
               snd w = Z.min (stop - 1) (Last - 1).
Proof.
  intros peak Last w. subst peak w. unfold FindBolusPosition.
  pose proof (find_peak_spec wTac wNumTms) as Hpeak.
  destruct (find_peak wTac wNumTms) as [msd peak]. cbn [fst snd].
  destruct Hpeak as (_ & Hp0 & Hp1 & _).
  destruct (start_loop_spec wTac (pre_bl - noise)%dbl (Z.to_nat (peak - pre_N)) peak)
    as (Hr & _ & _).
  pose proof (end_loop_spec wTac (post_bl - noise)%dbl noise msd (peak + 2)
                (Z.to_nat (Last - (peak + 2))) (peak + 2) (Z.le_refl _)) as H.
  rewrite Z.sub_diag in H. cbn [Z.to_nat running_max] in H.
  destruct H as (Hs & _ & _).
  split; [lia | split; [lia | ]].
  exists (end_loop wTac (post_bl - noise)%dbl noise
            (Z.to_nat (Last - (peak + 2))) (peak + 2) msd).
  split; [lia | reflexivity].
Qed.

(** X2. The detected window is empty ([start >= end], the voxel is
    rejected) exactly when the peak lies within one frame of the
    post-baseline window or inside it ([wNumTms - post_N <= peak + 1]) and
    the start index has not moved below [wNumTms - post_N - 1]. A curve
    whose peak is at least two frames before the post-baseline window is
    always accepted, with [start <= peak < end], whatever the noise and the
    baselines are. *)
Theorem FindBolusPosition_rejects_iff
    (pre_N post_N : Z) (wTac : PDOUBLE) (wNumTms : Z) (noise pre_bl post_bl : double) :
  let peak := snd (find_peak wTac wNumTms) in
  let Last := wNumTms - post_N in
  let b_start := fst (FindBolusPosition pre_N post_N wTac wNumTms noise pre_bl post_bl) in
  let b_end := snd (FindBolusPosition pre_N post_N wTac wNumTms noise pre_bl post_bl) in
  (b_start >= b_end <-> Last <= peak + 1 /\ Last - 1 <= b_start) /\
  (peak + 2 <= Last -> b_start <= peak < b_end) /\
  (Last <= peak + 1 -> b_end = Last - 1).
Proof.
  intros peak Last b_start b_end.
  destruct (FindBolusPosition_shape pre_N post_N wTac wNumTms noise pre_bl post_bl)
    as (Hp & Hs & stop & Hstop & He).
  fold peak in Hp, Hs, Hstop. fold Last in Hstop, He. fold b_start in Hs. fold b_end in He.
  lia.
Qed.

(** X2 on a curve of nine samples: the dip at index 6 touches the
    post-baseline window of three frames, and the window is empty. *)
Lemma FindBolusPosition_rejects_iff_witness :
  let wTac := of_list [99; 100; 101; 100; 100; 100; 40; 100; 100]%float in
  let w := FindBolusPosition 3 3 wTac 9 1%float 100%float 100%float in
  snd w = 9 - 3 - 1 /\ fst w >= snd w.
Proof.
  intros wTac w.
  pose proof (FindBolusPosition_rejects_iff 3 3 wTac 9 1%float 100%float 100%float)
    as (Hiff & _ & Hend).
  assert (Hlast : 9 - 3 <= snd (find_peak wTac 9) + 1) by (vm_compute; discriminate).
  split; [exact (Hend Hlast) | ].
  apply Hiff. split; [exact Hlast | vm_compute; discriminate].
Defined.

(** X3. With window lengths that are not negative, every window the
    detector accepts lies inside the working curve and before the
    post-baseline window: [0 <= start < end < wNumTms - post_N <= wNumTms].
    The start index is never negative, accepted or not. *)
Theorem FindBolusPosition_window_in_curve
    (pre_N post_N : Z) (wTac : PDOUBLE) (wNumTms : Z) (noise pre_bl post_bl : double)
    (Hpre : 0 <= pre_N) (Hpost : 0 <= post_N) :
  let b_start := fst (FindBolusPosition pre_N post_N wTac wNumTms noise pre_bl post_bl) in
  let b_end := snd (FindBolusPosition pre_N post_N wTac wNumTms noise pre_bl post_bl) in
  0 <= b_start /\
  (b_start < b_end -> 0 <= b_start < b_end /\ b_end < wNumTms - post_N <= wNumTms).
Proof.
  intros b_start b_end.
  destruct (FindBolusPosition_shape pre_N post_N wTac wNumTms noise pre_bl post_bl)
    as (Hp & Hs & stop & Hstop & He).
  fold b_start in Hs. fold b_end in He. lia.
Qed.

(** X3 on a curve of nine samples with its dip at index 5. *)
Lemma FindBolusPosition_window_in_curve_witness :
  let wTac := of_list [99; 100; 101; 100; 60; 40; 50; 100; 100]%float in
  let w := FindBolusPosition 3 3 wTac 9 1%float 100%float 100%float in
  0 <= fst w /\ (fst w < snd w -> 0 <= fst w < snd w /\ snd w < 9 - 3 <= 9).
Proof.
  intros wTac w.
  apply (FindBolusPosition_window_in_curve 3 3 wTac 9 1%float 100%float 100%float); lia.
Defined.

Section DetectorReads.

Variables (w1 w2 : PDOUBLE).

Lemma peak_loop_ext n : forall t msd b_peak,
  (forall i, t <= i < t + Z.of_nat n -> w1 i = w2 i) ->
  peak_loop w1 n t msd b_peak = peak_loop w2 n t msd b_peak.
Proof.
  induction n as [ | n IH]; intros t msd b_peak H; cbn [peak_loop]; [reflexivity | ].
  rewrite (H t) by lia. destruct (w2 t < msd)%dbl; apply IH; intros i Hi; apply H; lia.
Qed.

Lemma start_loop_ext cutoff n : forall b,
  (forall i, b - Z.of_nat n <= i < b -> w1 i = w2 i) ->
  start_loop w1 cutoff n b = start_loop w2 cutoff n b.
Proof.
  induction n as [ | n IH]; intros b H; cbn [start_loop]; [reflexivity | ].
  rewrite (H (b - 1)) by lia.
  destruct (w2 (b - 1)%Z > cutoff)%dbl; [reflexivity | ].
  apply IH. intros i Hi. apply H. lia.
Qed.

Lemma end_loop_ext cutoff noise n : forall b mx,
  (forall i, b <= i < b + Z.of_nat n -> w1 i = w2 i) ->
  end_loop w1 cutoff noise n b mx = end_loop w2 cutoff noise n b mx.
Proof.
  induction n as [ | n IH]; intros b mx H; cbn [end_loop]; [reflexivity | ].
  rewrite (H b) by lia.
  destruct (end_test cutoff noise (raise_max mx (w2 b)) (w2 b)); [reflexivity | ].
  apply IH. intros i Hi. apply H. lia.
Qed.

End DetectorReads.

(** X4. [FindBolusPosition] reads nothing but the [wNumTms] samples of the
    working curve: with window lengths that are not negative and at least
    one sample, two curves that agree on [0 .. wNumTms-1] get the same
    window, whatever lies before or after them in memory. *)
Theorem FindBolusPosition_reads_inside_curve
    (pre_N post_N : Z) (w1 w2 : PDOUBLE) (wNumTms : Z) (noise pre_bl post_bl : double)
    (Hpre : 0 <= pre_N) (Hpost : 0 <= post_N) (Hlen : 1 <= wNumTms)
    (Hagree : forall i, 0 <= i < wNumTms -> w1 i = w2 i) :
  FindBolusPosition pre_N post_N w1 wNumTms noise pre_bl post_bl
  = FindBolusPosition pre_N post_N w2 wNumTms noise pre_bl post_bl.
Proof.
  assert (Hpk : find_peak w1 wNumTms = find_peak w2 wNumTms).
  { unfold find_peak. rewrite (Hagree 0) by lia.
    apply peak_loop_ext. intros i Hi. apply Hagree. lia. }
  pose proof (find_peak_spec w2 wNumTms) as Hspec.
  unfold FindBolusPosition. rewrite Hpk.
  destruct (find_peak w2 wNumTms) as [msd peak].
  destruct Hspec as (_ & Hp0 & Hp1 & _).
  f_equal.
  - apply start_loop_ext. intros i Hi. apply Hagree. lia.
  - f_equal. f_equal. apply end_loop_ext. intros i Hi. apply Hagree. lia.
Qed.

(** X4 on two curves of nine samples that differ only after the ninth. *)
Lemma FindBolusPosition_reads_inside_curve_witness :
  FindBolusPosition 3 3 (of_list [99; 100; 101; 100; 60; 40; 50; 100; 100]%float) 9
    1%float 100%float 100%float
  = FindBolusPosition 3 3 (of_list [99; 100; 101; 100; 60; 40; 50; 100; 100; 7; 7]%float) 9
      1%float 100%float 100%float.
Proof.
  apply FindBolusPosition_reads_inside_curve; try lia.
  intros i Hi.
  assert (H : i = 0 \/ i = 1 \/ i = 2 \/ i = 3 \/ i = 4 \/ i = 5 \/ i = 6
              \/ i = 7 \/ i = 8) by lia.
  repeat (destruct H as [-> | H]; [reflexivity | ]). subst i. reflexivity.
Defined.

(** ** The bolus detector and NaN *)

Lemma peak_loop_nan (wTac : PDOUBLE) n : forall t msd b_peak,
  Dbl.is_nan msd = true -> peak_loop wTac n t msd b_peak = (msd, b_peak).
Proof.
  induction n as [ | n IH]; intros t msd b_peak H; cbn [peak_loop]; [reflexivity | ].
  rewrite (nan_not_lt_right _ _ H). apply IH. exact H.
Qed.

Lemma start_loop_nan (wTac : PDOUBLE) (cutoff : double) n : forall b,
  Dbl.is_nan cutoff = true -> start_loop wTac cutoff n b = b - Z.of_nat n.
Proof.
  induction n as [ | n IH]; intros b H; cbn [start_loop]; [lia | ].
  change (wTac (b - 1)%Z > cutoff)%dbl with (cutoff < wTac (b - 1)%Z)%dbl.
  rewrite (nan_not_lt _ _ H), IH by exact H. lia.
Qed.

Lemma end_loop_nan (wTac : PDOUBLE) (cutoff noise : double) n : forall b mx,
  Dbl.is_nan cutoff = true -> Dbl.is_nan noise = true ->
  end_loop wTac cutoff noise n b mx = b + Z.of_nat n.
Proof.
  induction n as [ | n IH]; intros b mx Hc Hn; cbn [end_loop]; [lia | ].
  unfold end_test.
  change (wTac b > cutoff)%dbl with (cutoff < wTac b)%dbl.
  rewrite (nan_not_lt _ _ Hc).
  rewrite (nan_not_lt_right _ _ (sub_nan_right (raise_max mx (wTac b)) noise Hn)).
  cbn [orb]. rewrite IH by assumption. lia.
Qed.

(** X5. A NaN in the first sample hides every dip: no later sample
    compares below it, so the peak is index 0 and, with [0 <= pre_N], the
    window starts at index 0. *)
Theorem FindBolusPosition_nan_first_sample
    (pre_N post_N : Z) (wTac : PDOUBLE) (wNumTms : Z) (noise pre_bl post_bl : double)
    (Hnan : Dbl.is_nan (wTac 0) = true) (Hpre : 0 <= pre_N) :
  find_peak wTac wNumTms = (wTac 0, 0) /\
  fst (FindBolusPosition pre_N post_N wTac wNumTms noise pre_bl post_bl) = 0.
Proof.
  assert (Hpk : find_peak wTac wNumTms = (wTac 0, 0))
    by (unfold find_peak; apply peak_loop_nan; exact Hnan).
  split; [exact Hpk | ].
  unfold FindBolusPosition. rewrite Hpk. cbn [fst].
  replace (Z.to_nat (0 - pre_N)) with O by lia. reflexivity.
Qed.

(** X5 on a curve whose first sample is a NaN and whose dip is at
    index 5. *)
Lemma FindBolusPosition_nan_first_sample_witness :
  let wTac := of_list [PrimFloat.nan; 100; 101; 100; 60; 40; 50; 100; 100]%float in
  find_peak wTac 9 = (wTac 0, 0) /\
  fst (FindBolusPosition 3 3 wTac 9 1%float 100%float 100%float) = 0.
Proof.
  intros wTac.
  apply (FindBolusPosition_nan_first_sample 3 3 wTac 9 1%float 100%float 100%float).
  - reflexivity.
  - lia.
Defined.

(** X6. A noise estimate that is a NaN switches both stop tests off: the
    backward walk goes down to [pre_N] (or stays at a peak below it) and
    the forward scan runs to its bound, so the window is
    [(min peak pre_N, wNumTms - post_N - 1)] whatever the samples are. *)
Theorem FindBolusPosition_nan_noise
    (pre_N post_N : Z) (wTac : PDOUBLE) (wNumTms : Z) (noise pre_bl post_bl : double)
    (Hnan : Dbl.is_nan noise = true) :
  FindBolusPosition pre_N post_N wTac wNumTms noise pre_bl post_bl
  = (Z.min (snd (find_peak wTac wNumTms)) pre_N, wNumTms - post_N - 1).
Proof.
  unfold FindBolusPosition. destruct (find_peak wTac wNumTms) as [msd peak]. cbn [snd].
  rewrite start_loop_nan by (apply sub_nan_right; exact Hnan).
  rewrite end_loop_nan by (try apply sub_nan_right; exact Hnan).
  f_equal; lia.
Qed.

(** X6 on a curve of nine samples with its dip at index 5. *)
Lemma FindBolusPosition_nan_noise_witness :
  let wTac := of_list [99; 100; 101; 100; 60; 40; 50; 100; 100]%float in
  FindBolusPosition 3 3 wTac 9 PrimFloat.nan 100%float 100%float
  = (Z.min (snd (find_peak wTac 9)) 3, 9 - 3 - 1).
Proof.
  intros wTac.
  apply (FindBolusPosition_nan_noise 3 3 wTac 9 PrimFloat.nan 100%float 100%float).
  reflexivity.
Defined.

(** ** Series initialization: every path *)

Section InitPaths.

Variables (NumTms : Z) (AbsTarr GlobalTac : PDOUBLE) (demp_NoiseLevel : double).
Variables (NumRoiTac : Z) (RoiTacArr : Z -> PDOUBLE) (M6_FreeParm : PDOUBLE).
Variable PR_MakeRelativeArr : PDOUBLE -> Z -> option PDOUBLE.
Variable IsAir_ByMin : PDOUBLE -> double -> bool.
Variables (stack_Tac : PDOUBLE) (stack_Integral : double).

Lemma M6_ModelInit_paths st :
  let SkipTimes' := Dbl.to_int (M6_FreeParm 1) in
  let wNumTms' := NumTms - SkipTimes' in
  let rc := result (calibrate GlobalTac wNumTms') in
  let ec := events (calibrate GlobalTac wNumTms') in
  let roi_is_air :=
    IsAir_ByMin (fabs_loop (RoiTacArr 0) (Z.to_nat NumTms) 0 stack_Tac)
      (Dbl.of_int NumTms) in
  M6_ModelInit NumTms AbsTarr GlobalTac demp_NoiseLevel NumRoiTac RoiTacArr M6_FreeParm
    PR_MakeRelativeArr IsAir_ByMin stack_Tac stack_Integral st []
  = if NumRoiTac >? 1
    then ((false, st), [Msg "This Model requires no more than one White Matter ROI"])
    else
      match PR_MakeRelativeArr AbsTarr NumTms with
      | None => ((false, set_Tarr st None), [CallMakeRelativeArr])
      | Some T =>
          let st3 := mkStatics (Some T) (M6_FreeParm 0 * demp_NoiseLevel)%dbl
                       (WhiteMatterNorm st) SkipTimes' wNumTms' (fst rc) (snd rc) in
          if NumRoiTac =? 1
          then
            if roi_is_air
            then ((false, st3),
                  CallMakeRelativeArr
                    :: ec ++ [CallIsAir; Msg "White Matter ROI TAC is incorrect"])
            else ((true, set_WhiteMatterNorm st3 (ONE / stack_Integral)%dbl),
                  CallMakeRelativeArr :: ec ++ [CallIsAir])
          else ((true, set_WhiteMatterNorm st3 ONE), CallMakeRelativeArr :: ec)
      end.
Proof.
  intros SkipTimes' wNumTms' rc ec roi_is_air.
  unfold M6_ModelInit.
  destruct (NumRoiTac >? 1); [reflexivity | ].
  unfold bind at 1. unfold emit at 1.
  cbn [set_Tarr set_AirThresh set_SkipTimes set_wNumTms
       Tarr AirThresh WhiteMatterNorm SkipTimes wNumTms pre_N post_N].
  destruct (PR_MakeRelativeArr AbsTarr NumTms) as [T | ]; [ | reflexivity].
  unfold xz. unfold bind at 1. fold SkipTimes'. fold wNumTms'.
  rewrite (framed_calibrate GlobalTac wNumTms' ([] ++ [CallMakeRelativeArr])).
  fold rc. fold ec. destruct rc as [pre post].
  destruct (NumRoiTac =? 1).
  - fold roi_is_air. unfold xmsg, bind, emit, ret. destruct roi_is_air.
    + cbn [app fst snd]. rewrite <- app_assoc. reflexivity.
    + reflexivity.
  - reflexivity.
Qed.

End InitPaths.

Lemma existsb_is_msg_reads l : existsb is_msg (map RdGlobalTac l) = false.
Proof. induction l as [ | i l IH]; [reflexivity | exact IH]. Qed.

Lemma calibrate_events_reads (GlobalTac : PDOUBLE) (wNumTms : Z) :
  exists l, events (calibrate GlobalTac wNumTms) = map RdGlobalTac l.
Proof.
  destruct (calibrate_events GlobalTac wNumTms) as (l & Hev & _).
  eexists. exact Hev.
Qed.

Lemma calibrate_bounds (GlobalTac : PDOUBLE) (wNumTms : Z) :
  1 <= fst (result (calibrate GlobalTac wNumTms)) <= Z.max 1 wNumTms /\
  1 <= snd (result (calibrate GlobalTac wNumTms)) <= Z.max 1 wNumTms.
Proof.
  destruct (calibrate_spec GlobalTac wNumTms)
    as (pre & post & l1 & l2 & Heq & (Hr1 & _) & (Hr2 & _) & _).
  unfold result. rewrite Heq. cbn [fst snd]. lia.
Qed.

(** X7. [M6_ModelInit] succeeds exactly when at most one ROI is supplied,
    the time axis is built, and the ROI curve, if there is one, is not
    found to be air. It shows a message exactly when there is more than one
    ROI or the ROI curve is air; a failed [PR_MakeRelativeArr] is the one
    failure without a message. *)
Theorem M6_ModelInit_succeeds_iff
    (NumTms : Z) (AbsTarr GlobalTac : PDOUBLE) (demp_NoiseLevel : double)
    (NumRoiTac : Z) (RoiTacArr : Z -> PDOUBLE) (M6_FreeParm : PDOUBLE)
    (PR_MakeRelativeArr : PDOUBLE -> Z -> option PDOUBLE)
    (IsAir_ByMin : PDOUBLE -> double -> bool)
    (stack_Tac : PDOUBLE) (stack_Integral : double) (st : Statics) :
  let r := M6_ModelInit NumTms AbsTarr GlobalTac demp_NoiseLevel NumRoiTac RoiTacArr
             M6_FreeParm PR_MakeRelativeArr IsAir_ByMin stack_Tac stack_Integral st in
  let roi_is_air :=
    IsAir_ByMin (fabs_loop (RoiTacArr 0) (Z.to_nat NumTms) 0 stack_Tac)
      (Dbl.of_int NumTms) in
  (fst (result r) = true <->
   NumRoiTac <= 1 /\ PR_MakeRelativeArr AbsTarr NumTms <> None /\
   (NumRoiTac = 1 -> roi_is_air = false)) /\
  (existsb is_msg (events r) = true <->
   1 < NumRoiTac \/
   (PR_MakeRelativeArr AbsTarr NumTms <> None /\ NumRoiTac = 1 /\ roi_is_air = true)) /\
  (fst (result r) = false /\ existsb is_msg (events r) = false <->
   NumRoiTac <= 1 /\ PR_MakeRelativeArr AbsTarr NumTms = None).
Proof.
  intros r roi_is_air. subst r. unfold result, events.
  rewrite M6_ModelInit_paths. fold roi_is_air.
  destruct (calibrate_events_reads GlobalTac (NumTms - Dbl.to_int (M6_FreeParm 1)))
    as (l & ->).
  destruct (Z.gtb_spec NumRoiTac 1) as [Hgt | Hle].
  { cbn [fst snd existsb is_msg orb].
    intuition (try lia; try discriminate; try congruence). }
  destruct (PR_MakeRelativeArr AbsTarr NumTms) as [T | ].
  2:{ cbn [fst snd existsb is_msg orb].
      intuition (try lia; try discriminate; try congruence). }
  assert (HT : Some T <> None) by discriminate.
  destruct (Z.eqb_spec NumRoiTac 1) as [E | E].
  - destruct roi_is_air.
    + cbn [fst snd existsb is_msg orb]. rewrite existsb_app, existsb_is_msg_reads.
      cbn [existsb is_msg orb].
      intuition (try lia; try discriminate; try congruence).
    + cbn [fst snd existsb is_msg orb]. rewrite existsb_app, existsb_is_msg_reads.
      cbn [existsb is_msg orb].
      intuition (try lia; try discriminate; try congruence).
  - cbn [fst snd existsb is_msg orb]. rewrite existsb_is_msg_reads.
    intuition (try lia; try discriminate; try congruence).
Qed.

(** X8. A failing [M6_ModelInit] never touches the white matter norm of
    the series before. When it fails before the calibration (more than one
    ROI, or no time axis) it also leaves [AirThresh], [SkipTimes],
    [wNumTms], [pre_N] and [post_N] as they were and reads nothing of the
    global curve; with more than one ROI the statics are untouched. *)
Theorem M6_ModelInit_failure_keeps_state
    (NumTms : Z) (AbsTarr GlobalTac : PDOUBLE) (demp_NoiseLevel : double)
    (NumRoiTac : Z) (RoiTacArr : Z -> PDOUBLE) (M6_FreeParm : PDOUBLE)
    (PR_MakeRelativeArr : PDOUBLE -> Z -> option PDOUBLE)
    (IsAir_ByMin : PDOUBLE -> double -> bool)
    (stack_Tac : PDOUBLE) (stack_Integral : double) (st : Statics) :
  let r := M6_ModelInit NumTms AbsTarr GlobalTac demp_NoiseLevel NumRoiTac RoiTacArr
             M6_FreeParm PR_MakeRelativeArr IsAir_ByMin stack_Tac stack_Integral st in
  let st' := snd (result r) in
  fst (result r) = false ->
  WhiteMatterNorm st' = WhiteMatterNorm st /\
  (1 < NumRoiTac \/ PR_MakeRelativeArr AbsTarr NumTms = None ->
   AirThresh st' = AirThresh st /\ SkipTimes st' = SkipTimes st /\
   wNumTms st' = wNumTms st /\ pre_N st' = pre_N st /\ post_N st' = post_N st /\
   existsb is_read (events r) = false) /\
  (1 < NumRoiTac -> st' = st).
Proof.
  intros r st'. subst st' r. unfold result, events.
  rewrite M6_ModelInit_paths.
  destruct (Z.gtb_spec NumRoiTac 1) as [Hgt | Hle].
  { cbn [fst snd]. intros _. repeat split; reflexivity. }
  destruct (PR_MakeRelativeArr AbsTarr NumTms) as [T | ].
  2:{ cbn [fst snd]. intros _.
      split; [reflexivity | split; [intros _; repeat split; reflexivity | lia]]. }
  destruct (NumRoiTac =? 1).
  - destruct (IsAir_ByMin _ _).
    + cbn [fst snd]. intros _.
      split; [reflexivity | split; [intros [H | H]; [lia | discriminate H] | lia]].
    + cbn [fst]. discriminate.
  - cbn [fst]. discriminate.
Qed.

(** X8 on a series with two ROI curves. *)
Lemma M6_ModelInit_failure_keeps_state_witness :
  let st := mkStatics (Some Example.seconds) 20%float 0.5%float 0 9 3 3 in
  let r := M6_ModelInit 9 Example.seconds (of_list (repeat 100%float 9)) 1%float 2
             (fun _ => Example.zeros) M6_FreeParmDefault Example.MakeRelativeArr
             Example.never_air Example.zeros ZERO st in
  WhiteMatterNorm (snd (result r)) = 0.5%float /\ snd (result r) = st.
Proof.
  intros st r.
  destruct (M6_ModelInit_failure_keeps_state 9 Example.seconds
              (of_list (repeat 100%float 9)) 1%float 2 (fun _ => Example.zeros)
              M6_FreeParmDefault Example.MakeRelativeArr Example.never_air
              Example.zeros ZERO st) as (H1 & _ & H3).
  - reflexivity.
  - split; [exact H1 | apply H3; lia].
Defined.

(** X9. A successful [M6_ModelInit] overwrites every static: its answer
    and its trace are the same from any statics it starts from, so a
    second initialization, or one after [M6_ModelClose], gives the statics
    of the first. [M6_ModelClose] changes [Tarr] only. *)
Theorem M6_ModelInit_forgets_previous_state
    (NumTms : Z) (AbsTarr GlobalTac : PDOUBLE) (demp_NoiseLevel : double)
    (NumRoiTac : Z) (RoiTacArr : Z -> PDOUBLE) (M6_FreeParm : PDOUBLE)
    (PR_MakeRelativeArr : PDOUBLE -> Z -> option PDOUBLE)
    (IsAir_ByMin : PDOUBLE -> double -> bool)
    (stack_Tac : PDOUBLE) (stack_Integral : double) (st : Statics) :
  let Init := M6_ModelInit NumTms AbsTarr GlobalTac demp_NoiseLevel NumRoiTac RoiTacArr
                M6_FreeParm PR_MakeRelativeArr IsAir_ByMin stack_Tac stack_Integral in
  let st' := snd (result (Init st)) in
  fst (result (Init st)) = true ->
  (forall st2, Init st2 [] = Init st []) /\
  Init st' [] = Init st [] /\
  Init (M6_ModelClose st') [] = Init st [] /\
  Tarr (M6_ModelClose st') = None /\
  set_Tarr (M6_ModelClose st') (Tarr st') = st'.
Proof.
  intros Init st'.
  assert (Hany : fst (result (Init st)) = true -> forall st2, Init st2 [] = Init st []).
  { subst Init. cbv beta. unfold result. rewrite M6_ModelInit_paths. intros Hok st2.
    rewrite M6_ModelInit_paths. revert Hok.
    destruct (NumRoiTac >? 1); [cbn [fst]; discriminate | ].
    destruct (PR_MakeRelativeArr AbsTarr NumTms) as [T | ]; [ | cbn [fst]; discriminate].
    destruct (NumRoiTac =? 1); [ | reflexivity].
    destruct (IsAir_ByMin _ _); [cbn [fst]; discriminate | reflexivity]. }
  intros Hok.
  split; [exact (Hany Hok) | split; [exact (Hany Hok st') | split; [exact (Hany Hok _) | ]]].
  split; [reflexivity | ]. destruct st'; reflexivity.
Qed.

(** X9 on a flat series of nine frames with two skipped frames. *)
Lemma M6_ModelInit_forgets_previous_state_witness :
  let Init := M6_ModelInit 9 Example.seconds (of_list (repeat 100%float 9)) 1%float 0
                (fun _ => Example.zeros) (of_list [20; 2]%float) Example.MakeRelativeArr
                Example.never_air Example.zeros ZERO in
  Init (M6_ModelClose (snd (result (Init Example.statics0)))) [] = Init Example.statics0 [].
Proof.
  intros Init.
  refine (proj1 (proj2 (proj2
    (M6_ModelInit_forgets_previous_state 9 Example.seconds (of_list (repeat 100%float 9))
       1%float 0 (fun _ => Example.zeros) (of_list [20; 2]%float) Example.MakeRelativeArr
       Example.never_air Example.zeros ZERO Example.statics0 _)))).
  reflexivity.
Defined.

(** The range of [int] as an inequality. *)
Lemma is_int_spec (n : Z) : Dbl.is_int n = true <-> Dbl.INT_MIN <= n <= Dbl.INT_MAX.
Proof. unfold Dbl.is_int. rewrite andb_true_iff, !Z.leb_le. reflexivity. Qed.

(** Where the conversion to [int] is defined, its value is an [int]. *)
Lemma to_int_defined_is_int (x : double) :
  Dbl.to_int_defined x = true -> Dbl.is_int (Dbl.to_int x) = true.
Proof.
  unfold Dbl.to_int_defined, Dbl.to_int.
  destruct (Prim2SF x) as [s | s | | s m e]; try discriminate.
  - intros _. reflexivity.
  - exact (fun H => H).
Qed.

(** X10. Let [NumTms], [(int)M6_FreeParm[1]] and their difference be in
    the range of [int], so that the conversion and the subtraction of the
    code are defined. After a successful [M6_ModelInit] the statics fit
    together: [Tarr] is the time axis that was built, [AirThresh] is
    [M6_FreeParm[0] * demp_NoiseLevel], [SkipTimes] is [(int)M6_FreeParm[1]],
    [wNumTms = NumTms - SkipTimes], both window lengths are at least 1 and
    at most [max 1 wNumTms], all four integers are in the range of [int],
    and the norm is [1.0] unless exactly one ROI curve was supplied. *)
Theorem M6_ModelInit_statics
    (NumTms : Z) (AbsTarr GlobalTac : PDOUBLE) (demp_NoiseLevel : double)
    (NumRoiTac : Z) (RoiTacArr : Z -> PDOUBLE) (M6_FreeParm : PDOUBLE)
    (PR_MakeRelativeArr : PDOUBLE -> Z -> option PDOUBLE)
    (IsAir_ByMin : PDOUBLE -> double -> bool)
    (stack_Tac : PDOUBLE) (stack_Integral : double) (st : Statics)
    (Hnum : Dbl.is_int NumTms = true)
    (Hskip : Dbl.to_int_defined (M6_FreeParm 1) = true)
    (Hlen : Dbl.is_int (NumTms - Dbl.to_int (M6_FreeParm 1)) = true) :
  let r := M6_ModelInit NumTms AbsTarr GlobalTac demp_NoiseLevel NumRoiTac RoiTacArr
             M6_FreeParm PR_MakeRelativeArr IsAir_ByMin stack_Tac stack_Integral st in
  let st' := snd (result r) in
  fst (result r) = true ->
  Tarr st' = PR_MakeRelativeArr AbsTarr NumTms /\ Tarr st' <> None /\
  AirThresh st' = (M6_FreeParm 0 * demp_NoiseLevel)%dbl /\
  SkipTimes st' = Dbl.to_int (M6_FreeParm 1) /\
  wNumTms st' = NumTms - SkipTimes st' /\
  1 <= pre_N st' <= Z.max 1 (wNumTms st') /\
  1 <= post_N st' <= Z.max 1 (wNumTms st') /\
  (Dbl.is_int (SkipTimes st') = true /\ Dbl.is_int (wNumTms st') = true /\
   Dbl.is_int (pre_N st') = true /\ Dbl.is_int (post_N st') = true) /\
  (NumRoiTac <> 1 -> WhiteMatterNorm st' = ONE).
Proof.
  intros r st'. subst st' r. unfold result.
  rewrite M6_ModelInit_paths.
  pose proof (calibrate_bounds GlobalTac (NumTms - Dbl.to_int (M6_FreeParm 1))) as [Hb1 Hb2].
  pose proof (to_int_defined_is_int _ Hskip) as Hs.
  set (pre := fst (result (calibrate GlobalTac (NumTms - Dbl.to_int (M6_FreeParm 1))))) in *.
  set (post := snd (result (calibrate GlobalTac (NumTms - Dbl.to_int (M6_FreeParm 1))))) in *.
  assert (Hints : Dbl.is_int pre = true /\ Dbl.is_int post = true).
  { rewrite !is_int_spec in *. unfold Dbl.INT_MIN, Dbl.INT_MAX in *. lia. }
  destruct Hints as [Hi1 Hi2].
  destruct (NumRoiTac >? 1); [cbn [fst]; discriminate | ].
  destruct (PR_MakeRelativeArr AbsTarr NumTms) as [T | ]; [ | cbn [fst]; discriminate].
  destruct (Z.eqb_spec NumRoiTac 1) as [E | E].
  - destruct (IsAir_ByMin _ _); [cbn [fst]; discriminate | ].
    intros _. cbn [fst snd set_WhiteMatterNorm Tarr AirThresh SkipTimes wNumTms pre_N post_N
                   WhiteMatterNorm].
    repeat split; try reflexivity; try discriminate; try assumption; try lia.
  - intros _. cbn [fst snd set_WhiteMatterNorm Tarr AirThresh SkipTimes wNumTms pre_N post_N
                   WhiteMatterNorm].
    repeat split; try reflexivity; try discriminate; try assumption; try lia.
Qed.

(** X10 on a global curve of nine frames with two skipped frames. *)
Lemma M6_ModelInit_statics_witness :
  let r := M6_ModelInit 9 Example.seconds
             (of_list [100; 100; 100; 100; 60; 40; 50; 100; 100]%float) 1%float 0
             (fun _ => Example.zeros) (of_list [20; 2]%float) Example.MakeRelativeArr
             Example.never_air Example.zeros ZERO Example.statics0 in
  let st' := snd (result r) in
  wNumTms st' = 9 - SkipTimes st' /\ 1 <= pre_N st' <= Z.max 1 (wNumTms st') /\
  Dbl.is_int (wNumTms st') = true.
Proof.
  intros r st'.
  destruct (M6_ModelInit_statics 9 Example.seconds
              (of_list [100; 100; 100; 100; 60; 40; 50; 100; 100]%float) 1%float 0
              (fun _ => Example.zeros) (of_list [20; 2]%float) Example.MakeRelativeArr
              Example.never_air Example.zeros ZERO Example.statics0)
    as (_ & _ & _ & _ & Hw & Hp & _ & (_ & Hi & _) & _).
  - reflexivity.
  - reflexivity.
  - reflexivity.
  - reflexivity.
  - split; [exact Hw | split; [exact Hp | exact Hi]].
Defined.

(** The elements of the global curve that [M6_ModelInit] reads once it has
    built the time axis: the two ends of the window, every sample the
    minimum loop visits, and reads of the two scans among these. *)
Lemma M6_ModelInit_read_set
    (NumTms : Z) (AbsTarr GlobalTac : PDOUBLE) (demp_NoiseLevel : double)
    (NumRoiTac : Z) (RoiTacArr : Z -> PDOUBLE) (M6_FreeParm : PDOUBLE)
    (PR_MakeRelativeArr : PDOUBLE -> Z -> option PDOUBLE)
    (IsAir_ByMin : PDOUBLE -> double -> bool)
    (stack_Tac : PDOUBLE) (stack_Integral : double) (st : Statics) (T : PDOUBLE) :
  NumRoiTac <= 1 ->
  PR_MakeRelativeArr AbsTarr NumTms = Some T ->
  let w := NumTms - Dbl.to_int (M6_FreeParm 1) in
  let tr := events (M6_ModelInit NumTms AbsTarr GlobalTac demp_NoiseLevel NumRoiTac RoiTacArr
                      M6_FreeParm PR_MakeRelativeArr IsAir_ByMin stack_Tac stack_Integral st) in
  In (RdGlobalTac PASS_START) tr /\
  In (RdGlobalTac (PASS_START + (w - 1))) tr /\
  (forall i, In (RdGlobalTac i) tr ->
     i = PASS_START + (w - 1) \/
     PASS_START <= i <= PASS_START + Z.of_nat (Z.to_nat (w - 1))).
Proof.
  intros Hroi Halloc w tr.
  destruct (M6_ModelInit_reaches_calibration NumTms AbsTarr GlobalTac demp_NoiseLevel
              NumRoiTac RoiTacArr M6_FreeParm PR_MakeRelativeArr IsAir_ByMin
              stack_Tac stack_Integral st T Hroi Halloc) as (tl & Htr & Htl).
  fold w in Htr. fold tr in Htr.
  destruct (calibrate_events GlobalTac w) as (l & Hev & Hl).
  rewrite Hev in Htr. clear Hev.
  assert (Hin : forall i, In (RdGlobalTac i) tr <->
                  In i ([PASS_START; PASS_START + (w - 1)]
                        ++ zseq (PASS_START + 1) (Z.to_nat (w - 1)) ++ l)).
  { intros i. rewrite Htr. split.
    - intros [H | H]; [discriminate H | ].
      apply in_app_or in H. destruct H as [H | H];
        [apply in_map_RdGlobalTac; exact H | destruct (Htl i H)].
    - intros H. right. apply in_or_app. left. apply in_map_RdGlobalTac. exact H. }
  split; [ | split].
  - apply Hin. apply in_or_app. left. left. reflexivity.
  - apply Hin. apply in_or_app. left. right. left. reflexivity.
  - intros i Hi. apply Hin in Hi.
    apply in_app_or in Hi. destruct Hi as [[<- | [<- | []]] | Hi]; [right; lia | left; reflexivity | ].
    apply in_app_or in Hi. destruct Hi as [Hi | Hi].
    + apply in_zseq in Hi. right. lia.
    + apply Hl in Hi. right. lia.
Qed.

(** X11. Once [M6_ModelInit] has built the time axis, all its reads of the
    global curve lie inside the curve exactly when
    [PASS_START <= SkipTimes <= NumTms + 1] and the curve has at least three
    frames: fewer skipped frames than [PASS_START] read past the end, more
    than [NumTms + 1] read before the start. *)
Theorem M6_ModelInit_reads_in_bounds_iff
    (NumTms : Z) (AbsTarr GlobalTac : PDOUBLE) (demp_NoiseLevel : double)
    (NumRoiTac : Z) (RoiTacArr : Z -> PDOUBLE) (M6_FreeParm : PDOUBLE)
    (PR_MakeRelativeArr : PDOUBLE -> Z -> option PDOUBLE)
    (IsAir_ByMin : PDOUBLE -> double -> bool)
    (stack_Tac : PDOUBLE) (stack_Integral : double) (st : Statics) (T : PDOUBLE)
    (Hroi : NumRoiTac <= 1)
    (Halloc : PR_MakeRelativeArr AbsTarr NumTms = Some T) :
  let SkipTimes := Dbl.to_int (M6_FreeParm 1) in
  let tr := events (M6_ModelInit NumTms AbsTarr GlobalTac demp_NoiseLevel NumRoiTac RoiTacArr
                      M6_FreeParm PR_MakeRelativeArr IsAir_ByMin stack_Tac stack_Integral st) in
  (forall i, In (RdGlobalTac i) tr -> in_bounds NumTms i) <->
  (PASS_START <= SkipTimes <= NumTms + 1 /\ 3 <= NumTms).
Proof.
  intros SkipTimes tr.
  destruct (M6_ModelInit_read_set NumTms AbsTarr GlobalTac demp_NoiseLevel NumRoiTac
              RoiTacArr M6_FreeParm PR_MakeRelativeArr IsAir_ByMin stack_Tac
              stack_Integral st T Hroi Halloc) as (H0 & H1 & Hall).
  fold SkipTimes in H1, Hall. fold tr in H0, H1, Hall.
  unfold in_bounds, PASS_START in *. split.
  - intros H. pose proof (H _ H0). pose proof (H _ H1). lia.
  - intros [Hs Hn] i Hi. destruct (Hall i Hi) as [-> | Hb]; lia.
Qed.

(** X11 on a series of nine frames with two skipped frames. *)
Lemma M6_ModelInit_reads_in_bounds_iff_witness :
  let tr := events (M6_ModelInit 9 Example.seconds (of_list (repeat 100%float 9)) 1%float 0
                      (fun _ => Example.zeros) (of_list [20; 2]%float)
                      Example.MakeRelativeArr Example.never_air
                      Example.zeros ZERO Example.statics0) in
  (PASS_START <= 2 <= 9 + 1 /\ 3 <= 9) /\
  (forall i, In (RdGlobalTac i) tr -> in_bounds 9 i).
Proof.
  intros tr.
  assert (H : PASS_START <= 2 <= 9 + 1 /\ 3 <= 9) by (unfold PASS_START; lia).
  split; [exact H | ]. revert H.
  apply (M6_ModelInit_reads_in_bounds_iff 9 Example.seconds (of_list (repeat 100%float 9))
           1%float 0 (fun _ => Example.zeros) (of_list [20; 2]%float)
           Example.MakeRelativeArr Example.never_air Example.zeros ZERO Example.statics0
           (fun i => (Example.seconds i - Example.seconds 0)%dbl)).
  - lia.
  - reflexivity.
Defined.

(** ** The per-voxel pipeline: what it writes and what it integrates *)

(** X12. Once the time axis has been built ([Tarr] is not [NULL]),
    [M6_ModelFunc] answers [true] exactly when the voxel is not air
    and the window has [start < end]. It then calls [CalculateIntegral]
    once, on [end - start + 1 >= 2] samples, and writes once, the integral
    times the white matter norm, as its last action; when it answers
    [false] it writes nothing. *)
Theorem M6_ModelFunc_writes_once
    (NumTms : Z) (IsAir_ByMin : PDOUBLE -> double -> bool)
    (PR_ArrStats : PDOUBLE -> Z -> double * double)
    (CalculateIntegral : PDOUBLE -> PDOUBLE -> Z -> double)
    (log : double -> double) (stack_CorrTac stack_Cx : PDOUBLE)
    (st : Statics) (Tac : PDOUBLE)
    (Htarr : Tarr st <> None) :
  let wTac := padd Tac (SkipTimes st) in
  let wNumTms := NumTms - SkipTimes st in
  let wTarr := padd (deref (Tarr st)) (SkipTimes st) in
  let pre_bl := fst (PR_ArrStats wTac (pre_N st)) in
  let noise := snd (PR_ArrStats wTac (pre_N st)) in
  let post_bl := fst (PR_ArrStats (padd wTac (wNumTms - post_N st)) (post_N st)) in
  let b_start :=
    fst (FindBolusPosition (pre_N st) (post_N st) wTac wNumTms noise pre_bl post_bl) in
  let b_end :=
    snd (FindBolusPosition (pre_N st) (post_N st) wTac wNumTms noise pre_bl post_bl) in
  let Cx := concentration log stack_Cx
              (baseline_correct stack_CorrTac wTac wTarr pre_bl post_bl b_start b_end)
              pre_bl wNumTms in
  let Intg := CalculateIntegral (padd Cx b_start) (padd wTarr b_start)
                (b_end - b_start + 1) in
  let r := M6_ModelFunc NumTms IsAir_ByMin PR_ArrStats CalculateIntegral log
             stack_CorrTac stack_Cx st Tac in
  (result r = true <-> IsAir_ByMin Tac (AirThresh st) = false /\ b_start < b_end) /\
  (result r = true ->
   2 <= b_end - b_start + 1 /\
   events r = [CallIsAir; CallArrStats (pre_N st); CallArrStats (post_N st);
               CallIntegral (b_end - b_start + 1);
               CallWrite (Intg * WhiteMatterNorm st)%dbl]) /\
  List.length (filter is_write (events r)) = (if result r then 1 else 0)%nat /\
  List.length (filter is_integral (events r)) = (if result r then 1 else 0)%nat.
Proof.
  intros wTac wNumTms wTarr pre_bl noise post_bl b_start b_end Cx Intg r.
  subst r. unfold result, events. rewrite M6_ModelFunc_paths.
  fold wTac. fold wNumTms. fold wTarr. fold pre_bl. fold noise. fold post_bl.
  fold b_start. fold b_end. fold Cx. fold Intg.
  destruct (IsAir_ByMin Tac (AirThresh st)).
  - cbn [fst snd filter is_write is_integral List.length].
    intuition (try lia; try discriminate).
  - destruct (Z.geb_spec b_start b_end) as [Hge | Hlt];
      cbn [fst snd filter is_write is_integral List.length];
      intuition (try lia; try discriminate).
Qed.

(** X12 on a voxel of nine samples with its dip at index 5: it is accepted,
    with one call of [CalculateIntegral] and one write. *)
Lemma M6_ModelFunc_writes_once_witness :
  let st := mkStatics (Some Example.seconds) 20%float 1%float 0 9 3 3 in
  let Tac := of_list [99; 100; 101; 100; 60; 40; 50; 100; 100]%float in
  let r := M6_ModelFunc 9 Example.never_air Example.ArrStats Example.Integral
             Example.no_log Example.zeros Example.zeros st Tac in
  Tarr st <> None /\ result r = true /\
  List.length (filter is_write (events r)) = (if result r then 1 else 0)%nat /\
  List.length (filter is_integral (events r)) = (if result r then 1 else 0)%nat.
Proof.
  intros st Tac r.
  assert (Htarr : Tarr st <> None) by discriminate.
  split; [exact Htarr | ].
  split; [vm_compute; reflexivity | ].
  exact (proj2 (proj2
    (M6_ModelFunc_writes_once 9 Example.never_air Example.ArrStats Example.Integral
       Example.no_log Example.zeros Example.zeros st Tac Htarr))).
Defined.

(** X13. What [CalculateIntegral] is handed does not depend on what the
    stack held in [CorrTac] and [Cx]: with window lengths that are not
    negative, at every index [t] of the detected window the concentration
    is the clamp of [wTac[t] - sf * (wTarr[t] - wTarr[start])] over [pre_bl],
    though the concentration loop also reads [CorrTac] outside the window,
    where it was never written. *)
Theorem M6_ModelFunc_integrand_ignores_stack
    (NumTms : Z) (PR_ArrStats : PDOUBLE -> Z -> double * double)
    (log : double -> double) (stack_CorrTac stack_Cx : PDOUBLE)
    (st : Statics) (Tac : PDOUBLE)
    (Hpre : 0 <= pre_N st) (Hpost : 0 <= post_N st) :
  let wTac := padd Tac (SkipTimes st) in
  let wNumTms := NumTms - SkipTimes st in
  let wTarr := padd (deref (Tarr st)) (SkipTimes st) in
  let pre_bl := fst (PR_ArrStats wTac (pre_N st)) in
  let noise := snd (PR_ArrStats wTac (pre_N st)) in
  let post_bl := fst (PR_ArrStats (padd wTac (wNumTms - post_N st)) (post_N st)) in
  let b_start :=
    fst (FindBolusPosition (pre_N st) (post_N st) wTac wNumTms noise pre_bl post_bl) in
  let b_end :=
    snd (FindBolusPosition (pre_N st) (post_N st) wTac wNumTms noise pre_bl post_bl) in
  let sf := ((post_bl - pre_bl) / (wTarr b_end - wTarr b_start))%dbl in
  let Cx := concentration log stack_Cx
              (baseline_correct stack_CorrTac wTac wTarr pre_bl post_bl b_start b_end)
              pre_bl wNumTms in
  forall k, 0 <= k < b_end - b_start + 1 ->
    padd Cx b_start k
    = conc_sample log
        (wTac (b_start + k)%Z - sf * (wTarr (b_start + k)%Z - wTarr b_start))%dbl pre_bl.
Proof.
  intros wTac wNumTms wTarr pre_bl noise post_bl b_start b_end sf Cx k Hk.
  destruct (FindBolusPosition_shape (pre_N st) (post_N st) wTac wNumTms noise pre_bl post_bl)
    as (Hp & Hs & stop & Hstop & He).
  fold b_start in Hs. fold b_end in He.
  unfold padd at 1. subst Cx. unfold concentration.
  destruct (conc_loop_spec log
              (baseline_correct stack_CorrTac wTac wTarr pre_bl post_bl b_start b_end)
              pre_bl (Z.to_nat wNumTms) 0 stack_Cx) as [Hin _].
  rewrite Hin by lia. f_equal.
  unfold baseline_correct. fold sf.
  destruct (corr_loop_spec wTac wTarr sf (wTarr b_start)
              (Z.to_nat (b_end + 1 - b_start)) b_start stack_CorrTac) as [Hc _].
  apply Hc. lia.
Qed.

(** X13 on a voxel of nine samples with its dip at index 5, for two stacks
    that hold different values. *)
Lemma M6_ModelFunc_integrand_ignores_stack_witness :
  let st := mkStatics (Some Example.seconds) 20%float 1%float 0 9 3 3 in
  let Tac := of_list [99; 100; 101; 100; 60; 40; 50; 100; 100]%float in
  let pre_bl := fst (Example.ArrStats Tac 3) in
  let noise := snd (Example.ArrStats Tac 3) in
  let post_bl := fst (Example.ArrStats (padd Tac (9 - 3)) 3) in
  let w := FindBolusPosition 3 3 Tac 9 noise pre_bl post_bl in
  let Cx stack1 stack2 :=
    concentration Example.no_log stack2
      (baseline_correct stack1 Tac Example.seconds pre_bl post_bl (fst w) (snd w))
      pre_bl 9 in
  padd (Cx Example.zeros Example.zeros) (fst w) 0
  = padd (Cx Example.seconds (of_list [7; 7; 7]%float)) (fst w) 0.
Proof.
  intros st Tac pre_bl noise post_bl w Cx.
  pose proof (M6_ModelFunc_integrand_ignores_stack 9 Example.ArrStats Example.no_log
                Example.zeros Example.zeros st Tac ltac:(cbn; lia) ltac:(cbn; lia) 0) as H1.
  pose proof (M6_ModelFunc_integrand_ignores_stack 9 Example.ArrStats Example.no_log
                Example.seconds (of_list [7; 7; 7]%float) st Tac
                ltac:(cbn; lia) ltac:(cbn; lia) 0) as H2.
  cbv zeta in H1, H2.
  assert (Hk : 0 <= 0 < snd w - fst w + 1)
    by (vm_compute; split; [discriminate | reflexivity]).
  exact (eq_trans (H1 Hk) (eq_sym (H2 Hk))).
Defined.

(** ** Window lengths that leave no room *)

(** When the post-baseline window leaves at most one frame before it, no
    window has [start < end]. *)
Lemma FindBolusPosition_no_room
    (pre_N post_N : Z) (wTac : PDOUBLE) (wNumTms : Z) (noise pre_bl post_bl : double) :
  0 <= pre_N -> wNumTms - post_N <= 1 ->
  fst (FindBolusPosition pre_N post_N wTac wNumTms noise pre_bl post_bl)
  >= snd (FindBolusPosition pre_N post_N wTac wNumTms noise pre_bl post_bl).
Proof.
  intros Hpre Hroom.
  destruct (FindBolusPosition_shape pre_N post_N wTac wNumTms noise pre_bl post_bl)
    as (Hp & Hs & stop & Hstop & He).
  lia.
Qed.

Lemma M6_ModelFunc_no_room
    (NumTms : Z) (IsAir_ByMin : PDOUBLE -> double -> bool)
    (PR_ArrStats : PDOUBLE -> Z -> double * double)
    (CalculateIntegral : PDOUBLE -> PDOUBLE -> Z -> double)
    (log : double -> double) (stack_CorrTac stack_Cx : PDOUBLE)
    (st : Statics) (Tac : PDOUBLE) :
  0 <= pre_N st -> NumTms - SkipTimes st - post_N st <= 1 ->
  let r := M6_ModelFunc NumTms IsAir_ByMin PR_ArrStats CalculateIntegral log
             stack_CorrTac stack_Cx st Tac in
  result r = false /\ existsb is_write (events r) = false /\
  existsb is_integral (events r) = false.
Proof.
  intros Hpre Hroom r. subst r. unfold result, events. rewrite M6_ModelFunc_paths.
  destruct (IsAir_ByMin Tac (AirThresh st)); [repeat split; reflexivity | ].
  match goal with
  | |- context [?a >=? ?b] =>
      replace (a >=? b) with true
        by (symmetry; apply Z.geb_le, Z.ge_le; apply FindBolusPosition_no_room; assumption)
  end.
  repeat split; reflexivity.
Qed.

(** X14. With statics whose post-baseline window leaves at most one frame
    before it ([NumTms - SkipTimes - post_N <= 1]) and [0 <= pre_N], every
    voxel is void: [M6_ModelFunc] answers [false], integrates nothing and
    writes nothing, whatever the curve and the collaborators are. *)
Theorem M6_ModelFunc_void_without_room
    (NumTms : Z) (IsAir_ByMin : PDOUBLE -> double -> bool)
    (PR_ArrStats : PDOUBLE -> Z -> double * double)
    (CalculateIntegral : PDOUBLE -> PDOUBLE -> Z -> double)
    (log : double -> double) (stack_CorrTac stack_Cx : PDOUBLE)
    (st : Statics) (Tac : PDOUBLE)
    (Hpre : 0 <= pre_N st) (Hroom : NumTms - SkipTimes st - post_N st <= 1) :
  let r := M6_ModelFunc NumTms IsAir_ByMin PR_ArrStats CalculateIntegral log
             stack_CorrTac stack_Cx st Tac in
  result r = false /\ existsb is_write (events r) = false /\
  existsb is_integral (events r) = false.
Proof.
  exact (M6_ModelFunc_no_room NumTms IsAir_ByMin PR_ArrStats CalculateIntegral log
           stack_CorrTac stack_Cx st Tac Hpre Hroom).
Qed.

(** X14 on a voxel with a clear dip and window lengths of nine frames
    each on nine frames. *)
Lemma M6_ModelFunc_void_without_room_witness :
  let st := mkStatics (Some Example.seconds) 20%float 1%float 0 9 9 9 in
  let Tac := of_list [99; 100; 101; 100; 60; 40; 50; 100; 100]%float in
  let r := M6_ModelFunc 9 Example.never_air Example.ArrStats Example.Integral
             Example.no_log Example.zeros Example.zeros st Tac in
  result r = false /\ existsb is_write (events r) = false /\
  existsb is_integral (events r) = false.
Proof.
  intros st Tac r.
  apply (M6_ModelFunc_void_without_room 9 Example.never_air Example.ArrStats
           Example.Integral Example.no_log Example.zeros Example.zeros st Tac).
  - subst st. cbn [pre_N]. lia.
  - subst st. cbn [SkipTimes post_N]. lia.
Defined.

(** X15. A flat global curve makes the whole series void. When
    [M6_ModelInit] runs on a flat working window (at most one ROI, the time
    axis built, the ROI curve not air), it succeeds, and with the statics
    it leaves [M6_ModelFunc] answers [false] and writes nothing for every
    voxel curve. *)
Theorem M6_flat_series_is_void
    (NumTms : Z) (AbsTarr GlobalTac : PDOUBLE) (demp_NoiseLevel : double)
    (NumRoiTac : Z) (RoiTacArr : Z -> PDOUBLE) (M6_FreeParm : PDOUBLE)
    (PR_MakeRelativeArr : PDOUBLE -> Z -> option PDOUBLE)
    (IsAir_ByMin : PDOUBLE -> double -> bool)
    (PR_ArrStats : PDOUBLE -> Z -> double * double)
    (CalculateIntegral : PDOUBLE -> PDOUBLE -> Z -> double)
    (log : double -> double)
    (stack_Tac stack_CorrTac stack_Cx : PDOUBLE) (stack_Integral : double)
    (st : Statics) (T : PDOUBLE) (c : double)
    (Hroi : NumRoiTac <= 1)
    (Halloc : PR_MakeRelativeArr AbsTarr NumTms = Some T)
    (Hair : NumRoiTac = 1 ->
            IsAir_ByMin (fabs_loop (RoiTacArr 0) (Z.to_nat NumTms) 0 stack_Tac)
              (Dbl.of_int NumTms) = false)
    (Hlen : 1 <= NumTms - Dbl.to_int (M6_FreeParm 1))
    (Hflat : forall i, 0 <= i < NumTms - Dbl.to_int (M6_FreeParm 1) ->
                       GlobalTac (PASS_START + i) = c) :
  let init := M6_ModelInit NumTms AbsTarr GlobalTac demp_NoiseLevel NumRoiTac RoiTacArr
                M6_FreeParm PR_MakeRelativeArr IsAir_ByMin stack_Tac stack_Integral st in
  fst (result init) = true /\
  forall Tac,
    let r := M6_ModelFunc NumTms IsAir_ByMin PR_ArrStats CalculateIntegral log
               stack_CorrTac stack_Cx (snd (result init)) Tac in
    result r = false /\ existsb is_write (events r) = false.
Proof.
  intros init.
  destruct (M6_ModelInit_success NumTms AbsTarr GlobalTac demp_NoiseLevel NumRoiTac
              RoiTacArr M6_FreeParm PR_MakeRelativeArr IsAir_ByMin stack_Tac
              stack_Integral st T Hroi Halloc Hair) as [Hres _].
  fold init in Hres. rewrite Hres. cbn [fst snd]. split; [reflexivity | ].
  intros Tac.
  rewrite (calibrate_flat GlobalTac _ c Hlen Hflat). cbn [fst snd].
  destruct (M6_ModelFunc_no_room NumTms IsAir_ByMin PR_ArrStats CalculateIntegral log
              stack_CorrTac stack_Cx
              (mkStatics (Some T) (M6_FreeParm 0 * demp_NoiseLevel)%dbl
                 (if NumRoiTac =? 1 then (ONE / stack_Integral)%dbl else ONE)
                 (Dbl.to_int (M6_FreeParm 1)) (NumTms - Dbl.to_int (M6_FreeParm 1))
                 (NumTms - Dbl.to_int (M6_FreeParm 1))
                 (NumTms - Dbl.to_int (M6_FreeParm 1))) Tac)
    as (H1 & H2 & _).
  - cbn [pre_N]. lia.
  - cbn [SkipTimes post_N]. lia.
  - split; [exact H1 | exact H2].
Qed.

(** X15 on a flat global curve of nine frames with two skipped frames and
    a voxel with a clear dip. *)
Lemma M6_flat_series_is_void_witness :
  let init := M6_ModelInit 9 Example.seconds (of_list (repeat 100%float 9)) 1%float 0
                (fun _ => Example.zeros) (of_list [20; 2]%float) Example.MakeRelativeArr
                Example.never_air Example.zeros ZERO Example.statics0 in
  let Tac := of_list [99; 100; 101; 100; 60; 40; 50; 100; 100]%float in
  let r := M6_ModelFunc 9 Example.never_air Example.ArrStats Example.Integral
             Example.no_log Example.zeros Example.zeros (snd (result init)) Tac in
  fst (result init) = true /\ result r = false /\ existsb is_write (events r) = false.
Proof.
  intros init Tac r.
  destruct (M6_flat_series_is_void 9 Example.seconds (of_list (repeat 100%float 9)) 1%float 0
              (fun _ => Example.zeros) (of_list [20; 2]%float) Example.MakeRelativeArr
              Example.never_air Example.ArrStats Example.Integral Example.no_log
              Example.zeros Example.zeros Example.zeros ZERO Example.statics0
              (fun i => (Example.seconds i - Example.seconds 0)%dbl) 100%float)
    as [Hok Hvoid].
  - lia.
  - reflexivity.
  - intros _. reflexivity.
  - vm_compute. discriminate.
  - change (Dbl.to_int (of_list [20; 2]%float 1)) with 2. intros i Hi.
    assert (H : i = 0 \/ i = 1 \/ i = 2 \/ i = 3 \/ i = 4 \/ i = 5 \/ i = 6) by lia.
    repeat (destruct H as [-> | H]; [reflexivity | ]). subst i. reflexivity.
  - split; [exact Hok | exact (Hvoid Tac)].
Defined.

(** ** From the initialization to the voxels *)

(** X16. With the statics a successful [M6_ModelInit] leaves, the voxel
    stage classifies the raw curve at the threshold
    [M6_FreeParm[0] * demp_NoiseLevel], works on the curve from frame
    [(int)M6_FreeParm[1]] on with the window lengths of the calibration,
    and answers [true] exactly when the curve is not air at that threshold
    and the window found with these lengths has [start < end]. *)
Theorem M6_init_then_voxel
    (NumTms : Z) (AbsTarr GlobalTac : PDOUBLE) (demp_NoiseLevel : double)
    (NumRoiTac : Z) (RoiTacArr : Z -> PDOUBLE) (M6_FreeParm : PDOUBLE)
    (PR_MakeRelativeArr : PDOUBLE -> Z -> option PDOUBLE)
    (IsAir_ByMin : PDOUBLE -> double -> bool)
    (PR_ArrStats : PDOUBLE -> Z -> double * double)
    (CalculateIntegral : PDOUBLE -> PDOUBLE -> Z -> double)
    (log : double -> double)
    (stack_Tac stack_CorrTac stack_Cx : PDOUBLE) (stack_Integral : double)
    (st : Statics) (Tac : PDOUBLE) :
  let init := M6_ModelInit NumTms AbsTarr GlobalTac demp_NoiseLevel NumRoiTac RoiTacArr
                M6_FreeParm PR_MakeRelativeArr IsAir_ByMin stack_Tac stack_Integral st in
  let skip := Dbl.to_int (M6_FreeParm 1) in
  let wlen := NumTms - skip in
  let pre := fst (result (calibrate GlobalTac wlen)) in
  let post := snd (result (calibrate GlobalTac wlen)) in
  let wTac := padd Tac skip in
  let pre_bl := fst (PR_ArrStats wTac pre) in
  let noise := snd (PR_ArrStats wTac pre) in
  let post_bl := fst (PR_ArrStats (padd wTac (wlen - post)) post) in
  let w := FindBolusPosition pre post wTac wlen noise pre_bl post_bl in
  let r := M6_ModelFunc NumTms IsAir_ByMin PR_ArrStats CalculateIntegral log
             stack_CorrTac stack_Cx (snd (result init)) Tac in
  fst (result init) = true ->
  (result r = true <->
   IsAir_ByMin Tac (M6_FreeParm 0 * demp_NoiseLevel)%dbl = false /\ fst w < snd w) /\
  (IsAir_ByMin Tac (M6_FreeParm 0 * demp_NoiseLevel)%dbl = true ->
   events r = [CallIsAir]).
Proof.
  intros init skip wlen pre post wTac pre_bl noise post_bl w r.
  subst r.
  pose proof (f_equal fst (M6_ModelInit_paths NumTms AbsTarr GlobalTac demp_NoiseLevel
                NumRoiTac RoiTacArr M6_FreeParm PR_MakeRelativeArr IsAir_ByMin
                stack_Tac stack_Integral st)) as Hri.
  cbv zeta in Hri. fold init in Hri. change (fst (init [])) with (result init) in Hri.
  rewrite Hri. clear Hri. fold skip. fold wlen.
  destruct (NumRoiTac >? 1); [cbn [fst]; discriminate | ].
  destruct (PR_MakeRelativeArr AbsTarr NumTms) as [T | ]; [ | cbn [fst]; discriminate].
  assert (Hgoal : forall norm,
    let r := M6_ModelFunc NumTms IsAir_ByMin PR_ArrStats CalculateIntegral log
               stack_CorrTac stack_Cx
               (mkStatics (Some T) (M6_FreeParm 0 * demp_NoiseLevel)%dbl norm
                  skip wlen pre post) Tac in
    (result r = true <->
     IsAir_ByMin Tac (M6_FreeParm 0 * demp_NoiseLevel)%dbl = false /\ fst w < snd w) /\
    (IsAir_ByMin Tac (M6_FreeParm 0 * demp_NoiseLevel)%dbl = true ->
     events r = [CallIsAir])).
  { intros norm r. subst r. unfold result, events. rewrite M6_ModelFunc_paths.
    cbn [AirThresh SkipTimes pre_N post_N Tarr WhiteMatterNorm].
    fold wlen. fold wTac. fold pre_bl. fold noise. fold post_bl. fold w.
    destruct (IsAir_ByMin Tac (M6_FreeParm 0 * demp_NoiseLevel)%dbl).
    - cbn [fst snd]. intuition (try lia; try discriminate).
    - destruct (Z.geb_spec (fst w) (snd w));
        cbn [fst snd]; intuition (try lia; try discriminate). }
  destruct (NumRoiTac =? 1).
  - destruct (IsAir_ByMin (fabs_loop _ _ _ _) _); [cbn [fst]; discriminate | ].
    intros _. cbn [fst snd]. exact (Hgoal (ONE / stack_Integral)%dbl).
  - intros _. cbn [fst snd]. exact (Hgoal ONE).
Qed.

(** X16 on a global curve of nine frames with two skipped frames and a
    classifier that finds every curve to be air. *)
Lemma M6_init_then_voxel_witness :
  let init := M6_ModelInit 9 Example.seconds
                (of_list [100; 100; 100; 100; 60; 40; 50; 100; 100]%float) 1%float 0
                (fun _ => Example.zeros) (of_list [20; 2]%float) Example.MakeRelativeArr
                Example.always_air Example.zeros ZERO Example.statics0 in
  let Tac := of_list [99; 100; 101; 100; 60; 40; 50; 100; 100]%float in
  events (M6_ModelFunc 9 Example.always_air Example.ArrStats Example.Integral
            Example.no_log Example.zeros Example.zeros (snd (result init)) Tac)
  = [CallIsAir].
Proof.
  intros init Tac.
  refine (proj2
    (M6_init_then_voxel 9 Example.seconds
       (of_list [100; 100; 100; 100; 60; 40; 50; 100; 100]%float) 1%float 0
       (fun _ => Example.zeros) (of_list [20; 2]%float) Example.MakeRelativeArr
       Example.always_air Example.ArrStats Example.Integral Example.no_log
       Example.zeros Example.zeros Example.zeros ZERO Example.statics0 Tac _) _).
  - reflexivity.
  - reflexivity.
Defined.

(** ** The ends of the correction and the ROI curve *)

Lemma mul_sub_self (sf t : double) :
  Prim2SF (sf * (t - t))%dbl = S754_nan \/
  exists s, Prim2SF (sf * (t - t))%dbl = S754_zero s.
Proof.
  rewrite mul_spec, sub_spec. unfold SF64mul, SF64sub.
  destruct (SFsub_diag (Prim2SF t)) as [-> | ->].
  - left. destruct (Prim2SF sf) as [s | s | | s m e]; reflexivity.
  - destruct (Prim2SF sf) as [s | s | | s m e]; cbn; eauto.
Qed.

Lemma sub_zero_eqb (w z : double) (s : bool) :
  Prim2SF z = S754_zero s -> Dbl.is_nan w = false ->
  PrimFloat.eqb (w - z)%dbl w = true.
Proof.
  intros Hz Hw. apply is_nan_false in Hw.
  rewrite FloatAxioms.eqb_spec, sub_spec, Hz. unfold SF64sub, SFeqb.
  destruct (Prim2SF w) as [sw | sw | | sw mw ew].
  - destruct sw, s; reflexivity.
  - destruct sw; reflexivity.
  - congruence.
  - cbn [SFsub]. rewrite SFcompare_refl_finite. reflexivity.
Qed.

Lemma div_sub_self_mul (x t : double) :
  Dbl.is_nan (x / (t - t) * (t - t))%dbl = true.
Proof.
  unfold Dbl.is_nan, PrimFloat.is_nan.
  rewrite FloatAxioms.eqb_spec, mul_spec, div_spec, sub_spec.
  unfold SF64mul, SF64div, SF64sub.
  destruct (SFsub_diag (Prim2SF t)) as [-> | ->];
    destruct (Prim2SF x) as [s | s | | s m e]; reflexivity.
Qed.

(** X17. The correction is anchored at the start of the window: when the
    window is not empty, the start sample is a number and the correction
    term [sf * (wTarr[start] - wTarr[start])] is not a NaN (the slope and
    the start time are finite), the corrected start sample compares equal
    ([==]) to the sample itself. When the term is a NaN the corrected
    start sample is a NaN, and this is the case whenever the two ends of
    the window have the same time, [wTarr[end] = wTarr[start]]. *)
Theorem baseline_correct_anchored
    (stack_CorrTac wTac wTarr : PDOUBLE) (pre_bl post_bl : double) (b_start b_end : Z)
    (Hwin : b_start <= b_end) :
  let sf := ((post_bl - pre_bl) / (wTarr b_end - wTarr b_start))%dbl in
  let term := (sf * (wTarr b_start - wTarr b_start))%dbl in
  let CorrTac := baseline_correct stack_CorrTac wTac wTarr pre_bl post_bl b_start b_end in
  (Dbl.is_nan term = false -> Dbl.is_nan (wTac b_start) = false ->
   PrimFloat.eqb (CorrTac b_start) (wTac b_start) = true) /\
  (Dbl.is_nan term = true -> Dbl.is_nan (CorrTac b_start) = true) /\
  (wTarr b_end = wTarr b_start -> Dbl.is_nan term = true).
Proof.
  intros sf term CorrTac.
  assert (HC : CorrTac b_start = (wTac b_start - term)%dbl).
  { subst CorrTac. unfold baseline_correct. fold sf.
    destruct (corr_loop_spec wTac wTarr sf (wTarr b_start)
                (Z.to_nat (b_end + 1 - b_start)) b_start stack_CorrTac) as [Hin _].
    rewrite Hin by lia. reflexivity. }
  rewrite HC. split.
  - intros Ht Hw. destruct (mul_sub_self sf (wTarr b_start)) as [Hn | [s Hz]].
    + apply is_nan_false in Ht. fold term in Hn. congruence.
    + exact (sub_zero_eqb _ _ s Hz Hw).
  - split; [intros Ht; apply sub_nan_right; exact Ht | ].
    intros Heq. subst term sf. rewrite Heq. apply div_sub_self_mul.
Qed.

(** X17 on a curve of nine samples, frame times of one second and the
    window [4 .. 6]. *)
Lemma baseline_correct_anchored_witness :
  let wTac := of_list [99; 100; 101; 100; 60; 40; 50; 100; 100]%float in
  let CorrTac := baseline_correct Example.zeros wTac Example.seconds 100%float 98%float 4 6 in
  PrimFloat.eqb (CorrTac 4) (wTac 4) = true.
Proof.
  intros wTac CorrTac.
  refine (proj1 (baseline_correct_anchored Example.zeros wTac Example.seconds
                   100%float 98%float 4 6 _) _ _).
  - lia.
  - reflexivity.
  - reflexivity.
Defined.

Lemma abs_not_negative (x : double) : (PrimFloat.abs x < ZERO)%dbl = false.
Proof.
  unfold Dbl.lt. rewrite ltb_spec, abs_spec.
  change (Prim2SF ZERO) with (S754_zero false).
  destruct (Prim2SF x) as [s | s | | s m e]; reflexivity.
Qed.

Lemma fabs_loop_spec (RoiTac : PDOUBLE) n : forall t Tac,
  (forall i, t <= i < t + Z.of_nat n ->
     fabs_loop RoiTac n t Tac i = PrimFloat.abs (RoiTac i)) /\
  (forall i, ~ (t <= i < t + Z.of_nat n) -> fabs_loop RoiTac n t Tac i = Tac i).
Proof.
  induction n as [ | n IH]; intros t Tac; cbn [fabs_loop].
  - split; [intros i Hi; lia | reflexivity].
  - destruct (IH (t + 1) (store Tac t (PrimFloat.abs (RoiTac t)))) as [Hin Hout].
    split; intros i Hi.
    + destruct (Z.eq_dec i t) as [-> | Hne].
      * rewrite Hout by lia. unfold store. rewrite Z.eqb_refl. reflexivity.
      * apply Hin. lia.
    + rewrite Hout by lia. unfold store.
      replace (i =? t) with false by (symmetry; apply Z.eqb_neq; lia). reflexivity.
Qed.

(** X18. The ROI curve that [M6_ModelInit] hands to [IsAir_ByMin] holds the
    absolute values of the [NumTms] samples of the ROI: no sample of it
    compares below zero, and a sample of the ROI and its negation give the
    same sample. Beyond [NumTms] the buffer holds what the stack held. *)
Theorem fabs_loop_not_negative
    (RoiTac stack_Tac : PDOUBLE) (NumTms t : Z) :
  let Tac := fabs_loop RoiTac (Z.to_nat NumTms) 0 stack_Tac in
  (0 <= t < NumTms ->
   Tac t = PrimFloat.abs (RoiTac t) /\ (Tac t < ZERO)%dbl = false /\
   fabs_loop (fun i => (- RoiTac i)%dbl) (Z.to_nat NumTms) 0 stack_Tac t = Tac t) /\
  (~ (0 <= t < NumTms) -> Tac t = stack_Tac t).
Proof.
  intros Tac. subst Tac.
  destruct (fabs_loop_spec RoiTac (Z.to_nat NumTms) 0 stack_Tac) as [Hin Hout].
  destruct (fabs_loop_spec (fun i => (- RoiTac i)%dbl) (Z.to_nat NumTms) 0 stack_Tac)
    as [Hin' _].
  split.
  - intros Ht. rewrite Hin, Hin' by lia.
    split; [reflexivity | split; [apply abs_not_negative | ]].
    apply Prim2SF_inj. rewrite !abs_spec, opp_spec.
    destruct (Prim2SF (RoiTac t)) as [s | s | | s m e]; reflexivity.
  - intros Ht. apply Hout. lia.
Qed.

(** X19. A working curve of at most two frames is never analysed. Every
    successful [M6_ModelInit] stores window lengths of at least one frame,
    so when [NumTms - SkipTimes <= 2] the post-baseline window leaves no
    room and [M6_ModelFunc] answers [false] and writes nothing for every
    voxel curve. *)
Theorem M6_short_series_is_void
    (NumTms : Z) (AbsTarr GlobalTac : PDOUBLE) (demp_NoiseLevel : double)
    (NumRoiTac : Z) (RoiTacArr : Z -> PDOUBLE) (M6_FreeParm : PDOUBLE)
    (PR_MakeRelativeArr : PDOUBLE -> Z -> option PDOUBLE)
    (IsAir_ByMin : PDOUBLE -> double -> bool)
    (PR_ArrStats : PDOUBLE -> Z -> double * double)
    (CalculateIntegral : PDOUBLE -> PDOUBLE -> Z -> double)
    (log : double -> double)
    (stack_Tac stack_CorrTac stack_Cx : PDOUBLE) (stack_Integral : double)
    (st : Statics) (Tac : PDOUBLE) :
  let init := M6_ModelInit NumTms AbsTarr GlobalTac demp_NoiseLevel NumRoiTac RoiTacArr
                M6_FreeParm PR_MakeRelativeArr IsAir_ByMin stack_Tac stack_Integral st in
  let r := M6_ModelFunc NumTms IsAir_ByMin PR_ArrStats CalculateIntegral log
             stack_CorrTac stack_Cx (snd (result init)) Tac in
  fst (result init) = true ->
  NumTms - Dbl.to_int (M6_FreeParm 1) <= 2 ->
  result r = false /\ existsb is_write (events r) = false.
Proof.
  intros init r Hok Hshort. subst r.
  pose proof (calibrate_bounds GlobalTac (NumTms - Dbl.to_int (M6_FreeParm 1))) as [Hb1 Hb2].
  assert (Hst : 0 <= pre_N (snd (result init)) /\
                NumTms - SkipTimes (snd (result init)) - post_N (snd (result init)) <= 1).
  { revert Hok. subst init. unfold result. rewrite M6_ModelInit_paths.
    destruct (NumRoiTac >? 1); [cbn [fst]; discriminate | ].
    destruct (PR_MakeRelativeArr AbsTarr NumTms) as [T | ]; [ | cbn [fst]; discriminate].
    destruct (NumRoiTac =? 1).
    - destruct (IsAir_ByMin _ _); [cbn [fst]; discriminate | ].
      intros _. cbn [fst snd set_WhiteMatterNorm SkipTimes pre_N post_N]. lia.
    - intros _. cbn [fst snd set_WhiteMatterNorm SkipTimes pre_N post_N]. lia. }
  destruct Hst as [Hpre Hroom].
  destruct (M6_ModelFunc_no_room NumTms IsAir_ByMin PR_ArrStats CalculateIntegral log
              stack_CorrTac stack_Cx (snd (result init)) Tac Hpre Hroom) as (H1 & H2 & _).
  split; [exact H1 | exact H2].
Qed.

(** X19 on a series of nine frames with seven skipped frames. *)
Lemma M6_short_series_is_void_witness :
  let init := M6_ModelInit 9 Example.seconds
                (of_list [100; 100; 100; 100; 60; 40; 50; 100; 100]%float) 1%float 0
                (fun _ => Example.zeros) (of_list [20; 7]%float) Example.MakeRelativeArr
                Example.never_air Example.zeros ZERO Example.statics0 in
  let Tac := of_list [99; 100; 101; 100; 60; 40; 50; 100; 100]%float in
  let r := M6_ModelFunc 9 Example.never_air Example.ArrStats Example.Integral
             Example.no_log Example.zeros Example.zeros (snd (result init)) Tac in
  result r = false /\ existsb is_write (events r) = false.
Proof.
  intros init Tac r.
  apply (M6_short_series_is_void 9 Example.seconds
           (of_list [100; 100; 100; 100; 60; 40; 50; 100; 100]%float) 1%float 0
           (fun _ => Example.zeros) (of_list [20; 7]%float) Example.MakeRelativeArr
           Example.never_air Example.ArrStats Example.Integral Example.no_log
           Example.zeros Example.zeros Example.zeros ZERO Example.statics0 Tac).
  - reflexivity.
  - vm_compute. discriminate.
Defined.
